(** * BLE_Advertising: the advertiser of [source/main.cpp]

    A shallow embedding of the application in [source/main.cpp]: the
    error-code table and [ToString], the class
    [BluetoothLowEnergyEncapsulation] ([start], [on_init_complete],
    [start_advertising], [update_battery_level]), [schedule_ble_events] and
    [main].  The mbed-os services the file calls (the BLE stack and its Gap,
    [ble::AdvertisingDataBuilder], [events::EventQueue]) are not part of the
    repository; they appear here as explicit collaborators. *)

From Stdlib Require Import ZArith Ascii String.
From stdpp Require Import gmap strings list.

Local Open Scope Z_scope.

(** ** Error codes ([ble_error_t])

    [ble_error_t] is a C enumeration, so a value of that type is an integer:
    every [Z] is a possible code.  The fourteen enumerators are declared in
    mbed-os ([ble/common/blecommon.h]) with the consecutive values below. *)

Abbreviation ble_error_t := Z (only parsing).

Definition BLE_ERROR_NONE : ble_error_t := 0.
Definition BLE_ERROR_BUFFER_OVERFLOW : ble_error_t := 1.
Definition BLE_ERROR_NOT_IMPLEMENTED : ble_error_t := 2.
Definition BLE_ERROR_PARAM_OUT_OF_RANGE : ble_error_t := 3.
Definition BLE_ERROR_INVALID_PARAM : ble_error_t := 4.
Definition BLE_STACK_BUSY : ble_error_t := 5.
Definition BLE_ERROR_INVALID_STATE : ble_error_t := 6.
Definition BLE_ERROR_NO_MEM : ble_error_t := 7.
Definition BLE_ERROR_OPERATION_NOT_PERMITTED : ble_error_t := 8.
Definition BLE_ERROR_INITIALIZATION_INCOMPLETE : ble_error_t := 9.
Definition BLE_ERROR_ALREADY_INITIALIZED : ble_error_t := 10.
Definition BLE_ERROR_UNSPECIFIED : ble_error_t := 11.
Definition BLE_ERROR_INTERNAL_STACK_FAILURE : ble_error_t := 12.
Definition BLE_ERROR_NOT_FOUND : ble_error_t := 13.

(** The C++ literals of the table carry their own quotation marks (an
    escaped double quote at each end of every description): [quoted s] is
    [s] between two double-quote characters (code 34). *)
Definition dquote : ascii := Eval cbv in ascii_of_nat 34.

Definition quoted (s : string) : string :=
  String dquote (s +:+ String dquote EmptyString).

(** [ErrorCodesMap_t = std::map<ble_error_t, std::string>]. *)
Abbreviation ErrorCodesMap_t := (gmap Z string) (only parsing).

(** [IndexElement_t = ErrorCodesMap_t::value_type], a key/value pair. *)
Definition IndexElement_t (k : ble_error_t) (v : string) : Z * string := (k, v).

(** [std::map::insert(value_type)]: inserts only when the key is absent. *)
Definition std_map_insert (kv : Z * string) (m : ErrorCodesMap_t) : ErrorCodesMap_t :=
  match m !! kv.1 with
  | Some _ => m
  | None => <[kv.1 := kv.2]> m
  end.

Definition make_error_codes_map : ErrorCodesMap_t :=
  let eMap : ErrorCodesMap_t := ∅ in
  let eMap := std_map_insert (IndexElement_t BLE_ERROR_NONE (quoted "No error")) eMap in
  let eMap := std_map_insert (IndexElement_t BLE_ERROR_BUFFER_OVERFLOW (quoted "The requested action would cause a buffer overflow and has been aborted")) eMap in
  let eMap := std_map_insert (IndexElement_t BLE_ERROR_NOT_IMPLEMENTED (quoted "Requested a feature that isn't yet implemented or isn't supported by the target HW")) eMap in
  let eMap := std_map_insert (IndexElement_t BLE_ERROR_PARAM_OUT_OF_RANGE (quoted "One of the supplied parameters is outside the valid range")) eMap in
  let eMap := std_map_insert (IndexElement_t BLE_ERROR_INVALID_PARAM (quoted "One of the supplied parameters is invalid")) eMap in
  let eMap := std_map_insert (IndexElement_t BLE_STACK_BUSY (quoted "The stack is busy")) eMap in
  let eMap := std_map_insert (IndexElement_t BLE_ERROR_INVALID_STATE (quoted "Invalid state")) eMap in
  let eMap := std_map_insert (IndexElement_t BLE_ERROR_NO_MEM (quoted "Out of memory")) eMap in
  let eMap := std_map_insert (IndexElement_t BLE_ERROR_OPERATION_NOT_PERMITTED (quoted "The operation requested is not permitted")) eMap in
  let eMap := std_map_insert (IndexElement_t BLE_ERROR_INITIALIZATION_INCOMPLETE (quoted "The BLE subsystem has not completed its initialization")) eMap in
  let eMap := std_map_insert (IndexElement_t BLE_ERROR_ALREADY_INITIALIZED (quoted "The BLE system has already been initialized")) eMap in
  let eMap := std_map_insert (IndexElement_t BLE_ERROR_UNSPECIFIED (quoted "Unknown error")) eMap in
  let eMap := std_map_insert (IndexElement_t BLE_ERROR_INTERNAL_STACK_FAILURE (quoted "The platform-specific stack failed")) eMap in
  let eMap := std_map_insert (IndexElement_t BLE_ERROR_NOT_FOUND (quoted "Data not found or there is nothing to return")) eMap in
  eMap.

(** The value the static [gs_ErrorCodesMap] is initialised with. *)
Definition gs_ErrorCodesMap : ErrorCodesMap_t := make_error_codes_map.

(** The text [ToString] falls back to when [find] reaches [end()]. *)
Definition not_an_error : string :=
  quoted "Warning! Code does not indicate an error and consequently does not exist in gs_ErrorCodesMap!".

(** [ToString] reads the global table with [find] (which, unlike
    [operator[]], never inserts).  The table is threaded through, so that
    what the call leaves in it is part of the result. *)
Definition ToString (key : ble_error_t) (table : ErrorCodesMap_t) : string * ErrorCodesMap_t :=
  let result := EmptyString in
  match table !! key with
  | Some second => let result := second in (result, table)
  | None => let result := not_an_error in (result, table)
  end.

(** The fourteen rows of the table, as the source lists them. *)
Definition error_descriptions : list (Z * string) :=
  [ (BLE_ERROR_NONE, quoted "No error");
    (BLE_ERROR_BUFFER_OVERFLOW, quoted "The requested action would cause a buffer overflow and has been aborted");
    (BLE_ERROR_NOT_IMPLEMENTED, quoted "Requested a feature that isn't yet implemented or isn't supported by the target HW");
    (BLE_ERROR_PARAM_OUT_OF_RANGE, quoted "One of the supplied parameters is outside the valid range");
    (BLE_ERROR_INVALID_PARAM, quoted "One of the supplied parameters is invalid");
    (BLE_STACK_BUSY, quoted "The stack is busy");
    (BLE_ERROR_INVALID_STATE, quoted "Invalid state");
    (BLE_ERROR_NO_MEM, quoted "Out of memory");
    (BLE_ERROR_OPERATION_NOT_PERMITTED, quoted "The operation requested is not permitted");
    (BLE_ERROR_INITIALIZATION_INCOMPLETE, quoted "The BLE subsystem has not completed its initialization");
    (BLE_ERROR_ALREADY_INITIALIZED, quoted "The BLE system has already been initialized");
    (BLE_ERROR_UNSPECIFIED, quoted "Unknown error");
    (BLE_ERROR_INTERNAL_STACK_FAILURE, quoted "The platform-specific stack failed");
    (BLE_ERROR_NOT_FOUND, quoted "Data not found or there is nothing to return") ].

(** ** Advertising payloads

    The data elements the application places in its payloads, and the
    payload a builder hands out: the elements in buffer order. *)

Inductive AdvertisingDataElement :=
| Flags
| CompleteLocalName (name : string)
| ManufacturerSpecificData (data : list Z)
| ServiceData (service : Z) (data : list Z).

Abbreviation Payload := (list AdvertisingDataElement) (only parsing).

(** [ble::LEGACY_ADVERTISING_MAX_SIZE] and [ble::LEGACY_ADVERTISING_HANDLE]
    (mbed-os constants), [GattService::UUID_BATTERY_SERVICE] (the 16-bit
    assigned number of the Battery Service) and the device name. *)
Definition LEGACY_ADVERTISING_MAX_SIZE : Z := 31.
Definition LEGACY_ADVERTISING_HANDLE : Z := 0.
Definition UUID_BATTERY_SERVICE : Z := 0x180F.
Definition DEVICE_NAME : string := "NUCLEO-WB55RG".

(** [ble::AdvertisingDataBuilder], the interface [main.cpp] programs
    against.  A builder is a value of some type [B]; every setter returns
    the status of the call and the builder it leaves. *)
Class AdvertisingDataBuilder (B : Type) := {
  builder_new : Z → B;
  clear : B → B;
  setFlags : B → ble_error_t * B;
  setName : string → B → ble_error_t * B;
  setManufacturerSpecificData : list Z → B → ble_error_t * B;
  setServiceData : Z → list Z → B → ble_error_t * B;
  getAdvertisingData : B → Payload
}.

(** *** A builder with the contract of the specification *)

Definition same_tag (a b : AdvertisingDataElement) : bool :=
  match a, b with
  | Flags, Flags => true
  | CompleteLocalName _, CompleteLocalName _ => true
  | ManufacturerSpecificData _, ManufacturerSpecificData _ => true
  | ServiceData _ _, ServiceData _ _ => true
  | _, _ => false
  end.

(** Octets an element takes in the buffer: a length octet, a type octet and
    the element's data (one octet of flags; two octets of 16-bit service
    identifier before the service data). *)
Definition encoded_size (e : AdvertisingDataElement) : Z :=
  match e with
  | Flags => 2 + 1
  | CompleteLocalName name => 2 + Z.of_nat (String.length name)
  | ManufacturerSpecificData data => 2 + Z.of_nat (length data)
  | ServiceData _ data => 2 + 2 + Z.of_nat (length data)
  end.

Definition payload_size (p : Payload) : Z :=
  foldr (λ e n, encoded_size e + n) 0 p.

(** Replace the element of the same tag where it stands, or append. *)
Fixpoint put_element (e : AdvertisingDataElement) (p : Payload) : Payload :=
  match p with
  | [] => [e]
  | f :: p' => if same_tag e f then e :: p' else f :: put_element e p'
  end.

Record FieldBuilder := {
  capacity : Z;
  elements : list AdvertisingDataElement
}.

(** Modelled from the spec: [ble::AdvertisingDataBuilder] belongs to mbed-os
    and is absent from the sources.  Section 4.2: a setter appends a new
    element or, if an element with that tag already exists, replaces it in
    place; it fails when the resulting total length would exceed the buffer
    capacity, and on failure the buffer is left unchanged. *)
Definition set_element (e : AdvertisingDataElement) (b : FieldBuilder) : Z * FieldBuilder :=
  let p := put_element e (elements b) in
  if payload_size p <=? capacity b
  then (BLE_ERROR_NONE, {| capacity := capacity b; elements := p |})
  else (BLE_ERROR_BUFFER_OVERFLOW, b).

(** Modelled from the spec: section 4.2, [clear()] resets the length to 0
    and the serialized payload is the current buffer contents. *)
#[export] Instance FieldBuilder_builder : AdvertisingDataBuilder FieldBuilder := {
  builder_new size := {| capacity := size; elements := [] |};
  clear b := {| capacity := capacity b; elements := [] |};
  setFlags := set_element Flags;
  setName name := set_element (CompleteLocalName name);
  setManufacturerSpecificData data := set_element (ManufacturerSpecificData data);
  setServiceData service data := set_element (ServiceData service data);
  getAdvertisingData := elements
}.

(** ** The BLE stack and its Gap *)

Inductive advertising_type_t :=
| CONNECTABLE_UNDIRECTED
| CONNECTABLE_DIRECTED
| SCANNABLE_UNDIRECTED
| NON_CONNECTABLE_UNDIRECTED
| CONNECTABLE_DIRECTED_LOW_DUTY.

(** [ble::AdvertisingParameters] as the application constructs it: the
    advertising type and the interval, in milliseconds. *)
Record AdvertisingParameters := {
  adv_type : advertising_type_t;
  adv_interval_ms : Z
}.

(** The four Gap entry points the application calls. *)
Inductive GapCall :=
| setAdvertisingScanResponse (handle : Z) (response : Payload)
| setAdvertisingParameters (handle : Z) (params : AdvertisingParameters)
| setAdvertisingPayload (handle : Z) (payload : Payload)
| startAdvertising (handle : Z).

(** Modelled from the spec: the Gap is an opaque service (section 6) whose
    calls take the payload bytes and return a status.  [gap_replies] is what
    the stack is going to answer, call after call (success once the list is
    used up); [gap_calls] logs the calls in order; the other fields hold
    what the Gap accepted with a success status, which is what is in
    effect on air. *)
Record Gap := {
  gap_replies : list Z;
  gap_calls : list GapCall;
  scan_response : option (list AdvertisingDataElement);
  parameters : option AdvertisingParameters;
  advertising_payload : option (list AdvertisingDataElement);
  advertising : bool
}.

Definition gap_accept (c : GapCall) (g : Gap) : Gap :=
  match c with
  | setAdvertisingScanResponse _ response =>
      {| gap_replies := gap_replies g; gap_calls := gap_calls g;
         scan_response := Some response; parameters := parameters g;
         advertising_payload := advertising_payload g; advertising := advertising g |}
  | setAdvertisingParameters _ params =>
      {| gap_replies := gap_replies g; gap_calls := gap_calls g;
         scan_response := scan_response g; parameters := Some params;
         advertising_payload := advertising_payload g; advertising := advertising g |}
  | setAdvertisingPayload _ payload =>
      {| gap_replies := gap_replies g; gap_calls := gap_calls g;
         scan_response := scan_response g; parameters := parameters g;
         advertising_payload := Some payload; advertising := advertising g |}
  | startAdvertising _ =>
      {| gap_replies := gap_replies g; gap_calls := gap_calls g;
         scan_response := scan_response g; parameters := parameters g;
         advertising_payload := advertising_payload g; advertising := true |}
  end.

Definition gap_invoke (c : GapCall) (g : Gap) : Z * Gap :=
  let status := hd BLE_ERROR_NONE (gap_replies g) in
  let g' := {| gap_replies := tl (gap_replies g); gap_calls := gap_calls g ++ [c];
               scan_response := scan_response g; parameters := parameters g;
               advertising_payload := advertising_payload g;
               advertising := advertising g |} in
  (status, if status =? BLE_ERROR_NONE then gap_accept c g' else g').

(** Modelled from the spec: section 6, [init] is asynchronous and invokes
    the completion callback exactly once with a status code, and the stack
    announces pending work through the events-to-process hook.
    [init_result] is the status the stack is going to deliver,
    [init_pending] says that [init] was requested and the completion is
    still due, [events_hook] that [onEventsToProcess] installed
    [schedule_ble_events]. *)
Record BLE := {
  init_result : Z;
  init_pending : bool;
  events_hook : bool;
  gap : Gap
}.

(** ** The event queue *)

(** The two kinds of work the application hands to the queue:
    [BLE::processEvents] (posted by [schedule_ble_events]) and the lambda
    that calls [update_battery_level]. *)
Inductive Event := ProcessEvents | UpdateBatteryLevel.

Record Timer := {
  period : Z;
  due : Z;
  callback : Event
}.

(** Modelled from the spec: [events::EventQueue] belongs to mbed-os.
    Section 4.4: a FIFO queue of one-shot items plus periodic timers, the
    first execution of a timer one period after its registration and every
    period thereafter.  [now] is the queue's clock in milliseconds. *)
Record EventQueue := {
  now : Z;
  posted : list Event;
  timers : list Timer
}.

Definition g_SharedEventQueue : EventQueue :=
  {| now := 0; posted := []; timers := [] |}.

(** ** Console output *)

Inductive Output :=
| Banner (text : string)
| VersionLine (major minor patch : Z)
| MacAddress
| ErrorLine (what : string) (code : Z) (description : string).

(** The two lines [main] prints before anything else (line ends and the
    build date and time left out). *)
Definition startup_banner : string :=
  quoted "../mbed-os-example-ble/BLE_Advertising" +:+ " Application - Beginning... ".
Definition built_banner : string := "Built: %s, %s".

(** The build: [MBED_VERSION] is [Some (major, minor, patch)] when the
    build defines [MBED_MAJOR_VERSION] (with [MBED_MINOR_VERSION] and
    [MBED_PATCH_VERSION]), [None] when it does not. *)
Class Build := MBED_VERSION : option (Z * Z * Z).

(** A build without the macro, and one of Mbed OS 6.15.1. *)
Definition bare_build : Build := None.
Definition mbed_os_build : Build := Some (6, 15, 1).

(** What [main] prints before it touches the stack: the banner, under
    [#ifdef MBED_MAJOR_VERSION] the version line, and the build line. *)
Definition banner_lines {build : Build} : list Output :=
  Banner startup_banner ::
  match MBED_VERSION with
  | Some (major, minor, patch) => [VersionLine major minor patch]
  | None => []
  end ++ [Banner built_banner].

(** ** The application *)

Section Application.
Context {B : Type} `{!AdvertisingDataBuilder B}.

(** Everything the program reads or writes: the static error table, the
    stack and the queue (held by reference in the class, so there is one
    of each), the members of [BluetoothLowEnergyEncapsulation], and the
    console. *)
Record World := {
  error_table : gmap Z string;
  m_BluetoothLowEnergyStack : BLE;
  m_SharedEventQueue : EventQueue;
  m_TheBatteryLevel : Z;
  m_AdvertisingDataBuilder : B;
  console : list Output
}.

Definition set_error_table (t : gmap Z string) (w : World) : World :=
  {| error_table := t;
     m_BluetoothLowEnergyStack := m_BluetoothLowEnergyStack w;
     m_SharedEventQueue := m_SharedEventQueue w;
     m_TheBatteryLevel := m_TheBatteryLevel w;
     m_AdvertisingDataBuilder := m_AdvertisingDataBuilder w;
     console := console w |}.

Definition set_stack (s : BLE) (w : World) : World :=
  {| error_table := error_table w;
     m_BluetoothLowEnergyStack := s;
     m_SharedEventQueue := m_SharedEventQueue w;
     m_TheBatteryLevel := m_TheBatteryLevel w;
     m_AdvertisingDataBuilder := m_AdvertisingDataBuilder w;
     console := console w |}.

Definition set_queue (q : EventQueue) (w : World) : World :=
  {| error_table := error_table w;
     m_BluetoothLowEnergyStack := m_BluetoothLowEnergyStack w;
     m_SharedEventQueue := q;
     m_TheBatteryLevel := m_TheBatteryLevel w;
     m_AdvertisingDataBuilder := m_AdvertisingDataBuilder w;
     console := console w |}.

Definition set_level (v : Z) (w : World) : World :=
  {| error_table := error_table w;
     m_BluetoothLowEnergyStack := m_BluetoothLowEnergyStack w;
     m_SharedEventQueue := m_SharedEventQueue w;
     m_TheBatteryLevel := v;
     m_AdvertisingDataBuilder := m_AdvertisingDataBuilder w;
     console := console w |}.

Definition set_builder (b : B) (w : World) : World :=
  {| error_table := error_table w;
     m_BluetoothLowEnergyStack := m_BluetoothLowEnergyStack w;
     m_SharedEventQueue := m_SharedEventQueue w;
     m_TheBatteryLevel := m_TheBatteryLevel w;
     m_AdvertisingDataBuilder := b;
     console := console w |}.

Definition set_console (c : list Output) (w : World) : World :=
  {| error_table := error_table w;
     m_BluetoothLowEnergyStack := m_BluetoothLowEnergyStack w;
     m_SharedEventQueue := m_SharedEventQueue w;
     m_TheBatteryLevel := m_TheBatteryLevel w;
     m_AdvertisingDataBuilder := m_AdvertisingDataBuilder w;
     console := c |}.

Definition set_gap (g : Gap) (s : BLE) : BLE :=
  {| init_result := init_result s; init_pending := init_pending s;
     events_hook := events_hook s; gap := g |}.

(** *** Commands: functions from the world to a result and a world *)

Definition M (A : Type) : Type := World → A * World.

#[global] Instance M_ret : MRet M := λ A (a : A) w, (a, w).
#[global] Instance M_bind : MBind M :=
  λ A C (f : A → M C) (m : M A) w, let '(a, w') := m w in f a w'.

Definition exec {A : Type} (m : M A) (w : World) : World := (m w).2.

Definition gets {A : Type} (f : World → A) : M A := λ w, (f w, w).
Definition modify (f : World → World) : M () := λ w, ((), f w).

(** [printf]: one more line on the console. *)
Definition printf (line : Output) : M () :=
  modify (λ w, set_console (console w ++ [line]) w).

(** The diagnostic every failure site prints: the message, the numeric
    code ([%d]) and [ToString(error)] ([%s]). *)
Definition print_error (what : string) (error : Z) : M () :=
  description ← (λ w, let '(s, t) := ToString error (error_table w) in
                      (s, set_error_table t w));
  printf (ErrorLine what error description).

(** Modelled from the spec: [print_mac_address] of [pretty_printer.h],
    which is not among the sources, prints the address of the device
    (section 1 counts it among the external collaborators); here it is one
    line on the console. *)
Definition print_mac_address : M () := printf MacAddress.

(** A call into [m_BluetoothLowEnergyStack.gap()]. *)
Definition gap_call (c : GapCall) : M Z :=
  λ w, let '(status, g) := gap_invoke c (gap (m_BluetoothLowEnergyStack w)) in
       (status, set_stack (set_gap g (m_BluetoothLowEnergyStack w)) w).

(** A call of a setter of [m_AdvertisingDataBuilder]. *)
Definition builder_call (setter : B → Z * B) : M Z :=
  λ w, let '(status, b) := setter (m_AdvertisingDataBuilder w) in
       (status, set_builder b w).

(** [EventQueue::call]: post a one-shot item. *)
Definition call (ev : Event) : M () :=
  modify (λ w, let q := m_SharedEventQueue w in
               set_queue {| now := now q; posted := posted q ++ [ev];
                            timers := timers q |} w).

(** [EventQueue::call_every]: register a timer, first due one period from
    now. *)
Definition call_every (ms : Z) (ev : Event) : M () :=
  modify (λ w, let q := m_SharedEventQueue w in
               set_queue {| now := now q; posted := posted q;
                            timers := timers q ++
                              [{| period := ms; due := now q + ms; callback := ev |}] |} w).

(** [if (error)]: a status is tested as a C integer. *)
Definition is_error (error : Z) : bool := negb (error =? 0).

(** [m_TheBatteryLevel--] on a [uint8_t]: the value of the expression is
    the old level, the stored level is one less, modulo 256. *)
Definition post_decrement : M Z :=
  λ w, (m_TheBatteryLevel w, set_level ((m_TheBatteryLevel w - 1) mod 256) w).

Definition start_advertising : M () :=
  let advertisingParameters :=
    {| adv_type := SCANNABLE_UNDIRECTED; adv_interval_ms := 1000 |} in
  let _vendor_specific_data := [0xAD; 0xDE; 0xBE; 0xEF] in
  _ ← builder_call (setManufacturerSpecificData _vendor_specific_data);
  data ← gets (λ w, getAdvertisingData (m_AdvertisingDataBuilder w));
  _ ← gap_call (setAdvertisingScanResponse LEGACY_ADVERTISING_HANDLE data);
  modify (λ w, set_builder (clear (m_AdvertisingDataBuilder w)) w);;
  _ ← builder_call setFlags;
  _ ← builder_call (setName DEVICE_NAME);
  level ← gets m_TheBatteryLevel;
  _ ← builder_call (setServiceData UUID_BATTERY_SERVICE [level]);
  error ← gap_call (setAdvertisingParameters LEGACY_ADVERTISING_HANDLE advertisingParameters);
  if is_error error then
    print_error "Error! _ble.gap().setAdvertisingParameters() failed:" error
  else
    data ← gets (λ w, getAdvertisingData (m_AdvertisingDataBuilder w));
    error ← gap_call (setAdvertisingPayload LEGACY_ADVERTISING_HANDLE data);
    if is_error error then
      print_error "Error! _ble.gap().setAdvertisingPayload() failed:" error
    else
      error ← gap_call (startAdvertising LEGACY_ADVERTISING_HANDLE);
      if is_error error then
        print_error "Error! _ble.gap().startAdvertising() failed:" error
      else
        call_every 1000 UpdateBatteryLevel.

Definition on_init_complete (error : Z) : M () :=
  if negb (error =? BLE_ERROR_NONE) then
    print_error "Error! BLE initialization failed:" error
  else
    print_mac_address;;
    start_advertising.

(** [if (m_TheBatteryLevel-- == 10) m_TheBatteryLevel = 100;] *)
Definition post_decrement_and_wrap : M () :=
  old ← post_decrement;
  if old =? 10 then modify (set_level 100) else mret ().

Definition update_battery_level : M () :=
  post_decrement_and_wrap;;
  level ← gets m_TheBatteryLevel;
  error ← builder_call (setServiceData UUID_BATTERY_SERVICE [level]);
  if is_error error then
    print_error "Error! _adv_data_builder.setServiceData() failed:" error
  else
    data ← gets (λ w, getAdvertisingData (m_AdvertisingDataBuilder w));
    error ← gap_call (setAdvertisingPayload LEGACY_ADVERTISING_HANDLE data);
    if is_error error then
      print_error "Error! _ble.gap().setAdvertisingPayload() failed:" error
    else
      mret ().

(** [schedule_ble_events]: forward the stack's notification to the queue. *)
Definition schedule_ble_events : M () := call ProcessEvents.

(** Modelled from the spec: [BLE::init] and [BLE::processEvents] belong to
    mbed-os.  Section 6: [init] is asynchronous and invokes the callback
    exactly once with a status code; the stack asks for its events to be
    processed through the hook. *)
Definition BLE_init : M () :=
  modify (λ w, let s := m_BluetoothLowEnergyStack w in
               set_stack {| init_result := init_result s; init_pending := true;
                            events_hook := events_hook s; gap := gap s |} w);;
  hook ← gets (λ w, events_hook (m_BluetoothLowEnergyStack w));
  if hook : bool then schedule_ble_events else mret ().

Definition processEvents : M () :=
  s ← gets m_BluetoothLowEnergyStack;
  if init_pending s then
    modify (set_stack {| init_result := init_result s; init_pending := false;
                         events_hook := events_hook s; gap := gap s |});;
    on_init_complete (init_result s)
  else mret ().

Definition run_event (ev : Event) : M () :=
  match ev with
  | ProcessEvents => processEvents
  | UpdateBatteryLevel => update_battery_level
  end.

Fixpoint run_events (evs : list Event) : M () :=
  match evs with
  | [] => mret ()
  | ev :: evs' => run_event ev;; run_events evs'
  end.

(** Modelled from the spec: section 4.4, the run loop pops due work and
    executes it to completion before servicing the next.  The posted
    one-shot items are run first in FIFO order; [dispatch_round] then lets
    one second pass (the only period the application registers), runs
    the timers that became due, each rearmed one period after its due
    time, and the items posted meanwhile. *)
Definition run_posted : M () :=
  evs ← gets (λ w, posted (m_SharedEventQueue w));
  modify (λ w, let q := m_SharedEventQueue w in
               set_queue {| now := now q; posted := []; timers := timers q |} w);;
  run_events evs.

Definition rearm (t : Timer) (time : Z) : Timer :=
  if due t <=? time
  then {| period := period t; due := due t + period t; callback := callback t |}
  else t.

Definition dispatch_round : M () :=
  modify (λ w, let q := m_SharedEventQueue w in
               set_queue {| now := now q + 1000; posted := posted q;
                            timers := timers q |} w);;
  q ← gets m_SharedEventQueue;
  modify (set_queue {| now := now q; posted := posted q;
                       timers := (λ t, rearm t (now q)) <$> timers q |});;
  run_events (callback <$> filter (λ t, due t <= now q) (timers q));;
  run_posted.

(** [dispatch_forever] does not return; [dispatch_forever rounds] is the
    loop observed after [rounds] seconds. *)
Fixpoint dispatch_rounds (rounds : nat) : M () :=
  match rounds with
  | O => mret ()
  | S n => dispatch_round;; dispatch_rounds n
  end.

Definition dispatch_forever (rounds : nat) : M () :=
  run_posted;; dispatch_rounds rounds.

Definition start (rounds : nat) : M () :=
  BLE_init;;
  dispatch_forever rounds.

(** The constructor: the references to the stack and the queue, the
    battery level at 50, an empty builder over the advertising buffer. *)
Definition BluetoothLowEnergyEncapsulation (ble : BLE) (event_queue : EventQueue) : World :=
  {| error_table := gs_ErrorCodesMap;
     m_BluetoothLowEnergyStack := ble;
     m_SharedEventQueue := event_queue;
     m_TheBatteryLevel := 50;
     m_AdvertisingDataBuilder := builder_new LEGACY_ADVERTISING_MAX_SIZE;
     console := [] |}.

Context {build : Build}.

(** [main], observed [rounds] seconds after [start] entered the loop.
    [ble] is [BLE::Instance()]; the version line is printed in the builds
    that define [MBED_MAJOR_VERSION].  [mbed_trace_init] sets up the trace
    library of mbed-os and touches nothing of this state; the line that
    follows [demo.start()] is never reached, since [dispatch_forever] does
    not return. *)
Definition main (ble : BLE) (rounds : nat) : World :=
  let ble := {| init_result := init_result ble; init_pending := init_pending ble;
                events_hook := true; gap := gap ble |} in
  let demo := BluetoothLowEnergyEncapsulation ble g_SharedEventQueue in
  exec (printf (Banner startup_banner);;
        match MBED_VERSION with
        | Some (major, minor, patch) => printf (VersionLine major minor patch)
        | None => mret ()
        end;;
        printf (Banner built_banner);;
        start rounds) demo.

(** *** Observations used in the statements *)

(** The state after [k] runs of [update_battery_level]. *)
Definition ticks (k : nat) (w : World) : World :=
  Nat.iter k (exec update_battery_level) w.

(** The status [setServiceData] is going to return to the next tick, and
    the status the Gap is going to return to its next call. *)
Definition service_data_status (w : World) : Z :=
  let v := m_TheBatteryLevel (exec post_decrement_and_wrap w) in
  (setServiceData UUID_BATTERY_SERVICE [v] (m_AdvertisingDataBuilder w)).1.

Definition next_gap_status (w : World) : Z :=
  hd BLE_ERROR_NONE (gap_replies (gap (m_BluetoothLowEnergyStack w))).

(** The status the payload patch of the next tick ends with: the first
    non-success status of its two calls, success otherwise. *)
Definition patch_status (w : World) : Z :=
  if is_error (service_data_status w) then service_data_status w
  else next_gap_status w.

(** The next [k] ticks all fail to patch the payload. *)
Fixpoint failing_ticks (k : nat) (w : World) : Prop :=
  match k with
  | O => True
  | S k' => patch_status w ≠ BLE_ERROR_NONE ∧
            failing_ticks k' (exec update_battery_level w)
  end.

(** The queue as [start_advertising] leaves it and every later round
    finds it: nothing posted, the battery timer due in one second. *)
Definition ticking (q : EventQueue) : Prop :=
  posted q = [] ∧
  timers q = [{| period := 1000; due := now q + 1000; callback := UpdateBatteryLevel |}].

End Application.

(** The queue one second later, the battery timer rearmed. *)
Definition a_second_later (q : EventQueue) : EventQueue :=
  {| now := now q + 1000; posted := [];
     timers := [{| period := 1000; due := now q + 1000 + 1000;
                   callback := UpdateBatteryLevel |}] |}.

(** [BLE::Instance()] before [main] touches it: nothing requested, nothing
    configured; [result] and [replies] are what the stack is going to
    answer. *)
Definition BLE_Instance (result : Z) (replies : list Z) : BLE :=
  {| init_result := result; init_pending := false; events_hook := false;
     gap := {| gap_replies := replies; gap_calls := []; scan_response := None;
               parameters := None; advertising_payload := None;
               advertising := false |} |}.

(** The message each of the three checked calls of [start_advertising]
    (parameters, payload, start) prints on failure. *)
Definition checked_call_message (i : nat) : string :=
  match i with
  | 0%nat => "Error! _ble.gap().setAdvertisingParameters() failed:"
  | 1%nat => "Error! _ble.gap().setAdvertisingPayload() failed:"
  | _ => "Error! _ble.gap().startAdvertising() failed:"
  end.

(** *** Concrete runs, with the builder of the specification *)

(** The object as constructed, the Gap answering [replies]. *)
Definition demo (replies : list Z) : @World FieldBuilder :=
  BluetoothLowEnergyEncapsulation (BLE_Instance BLE_ERROR_NONE replies) g_SharedEventQueue.

(** The program once initialisation has completed with success and
    [start_advertising] has run, no tick yet. *)
Definition advertising_world (replies : list Z) : @World FieldBuilder :=
  main (build:=bare_build) (BLE_Instance BLE_ERROR_NONE replies) 0.

(** A world whose buffer is full: a 29-character name takes all 31 octets,
    so that the builder has to refuse the battery service data. *)
Definition full_buffer_world : @World FieldBuilder :=
  set_builder {| capacity := LEGACY_ADVERTISING_MAX_SIZE;
                 elements := [CompleteLocalName "NUCLEO-WB55RG-NUCLEO-WB55RG-X"] |}
    (demo []).

(** The primary payload with the battery level [v] in it. *)
Definition battery_payload (v : Z) : list AdvertisingDataElement :=
  [Flags; CompleteLocalName DEVICE_NAME; ServiceData UUID_BATTERY_SERVICE [v]].

(** A run nothing disturbs: the battery timer armed, a Gap that accepts
    whatever comes, the builder and the Gap both holding the payload of the
    current level. *)
Definition undisturbed (w : @World FieldBuilder) : Prop :=
  ticking (m_SharedEventQueue w) ∧
  gap_replies (gap (m_BluetoothLowEnergyStack w)) = [] ∧
  m_AdvertisingDataBuilder w =
    {| capacity := LEGACY_ADVERTISING_MAX_SIZE;
       elements := battery_payload (m_TheBatteryLevel w) |} ∧
  advertising_payload (gap (m_BluetoothLowEnergyStack w)) =
    Some (battery_payload (m_TheBatteryLevel w)).

(** *** Further observations *)

(** The world in which the loop finds the posted completion: the banner
    printed, [init] requested, the hook installed, the object as
    constructed. *)
Definition started {B : Type} `{!AdvertisingDataBuilder B} {build : Build}
    (ble : BLE) : @World B :=
  {| error_table := gs_ErrorCodesMap;
     m_BluetoothLowEnergyStack :=
       {| init_result := init_result ble; init_pending := false; events_hook := true;
          gap := gap ble |};
     m_SharedEventQueue := g_SharedEventQueue;
     m_TheBatteryLevel := 50;
     m_AdvertisingDataBuilder := builder_new LEGACY_ADVERTISING_MAX_SIZE;
     console := banner_lines |}.

(** A world whose buffer holds ten octets only: the flags and the battery
    service data fit, the name does not. *)
Definition small_buffer_world : @World FieldBuilder :=
  set_builder {| capacity := 10; elements := [] |} (demo []).

(** A diagnostic as the failure sites print it: a non-success code with the
    text [ToString] gives for it. *)
Definition well_formed_line (line : Output) : Prop :=
  match line with
  | ErrorLine _ code description =>
      code ≠ BLE_ERROR_NONE ∧ description = (ToString code gs_ErrorCodesMap).1
  | _ => True
  end.

(** The one Gap call a tick makes. *)
Definition is_payload_call (c : GapCall) : Prop :=
  ∃ payload, c = setAdvertisingPayload LEGACY_ADVERTISING_HANDLE payload.

(** The battery timer as it stands at time [time]. *)
Definition battery_timer (time : Z) : Timer :=
  {| period := 1000; due := time + 1000; callback := UpdateBatteryLevel |}.

(** The transition rule as the specification words it (section 4.3):
    decrement, then wrap when the decremented level equals 10. *)
Definition decrement_then_compare (v : Z) : Z :=
  let v' := (v - 1) mod 256 in
  if v' =? 10 then 100 else v'.

(** The transition rule in closed form: wrap when the level before the
    decrement equals 10. *)
Definition next_level (v : Z) : Z :=
  if v =? 10 then 100 else (v - 1) mod 256.

(** * Properties *)

(** ** The error table *)

Lemma gs_ErrorCodesMap_rows : gs_ErrorCodesMap = list_to_map error_descriptions.
Proof. vm_compute. reflexivity. Qed.

Lemma error_descriptions_keys : error_descriptions.*1 = seqZ 0 14.
Proof. reflexivity. Qed.

Lemma gs_ErrorCodesMap_known (key : Z) (text : string) :
  (key, text) ∈ error_descriptions → gs_ErrorCodesMap !! key = Some text.
Proof.
  rewrite gs_ErrorCodesMap_rows.
  apply elem_of_list_to_map_1.
  rewrite error_descriptions_keys. apply NoDup_seqZ.
Qed.

Lemma gs_ErrorCodesMap_unknown (key : Z) :
  ¬ (0 <= key <= 13) → gs_ErrorCodesMap !! key = None.
Proof.
  intros Hk. rewrite gs_ErrorCodesMap_rows.
  apply not_elem_of_list_to_map_1.
  rewrite error_descriptions_keys, elem_of_seqZ. lia.
Qed.

Lemma error_descriptions_total (key : Z) :
  0 <= key <= 13 → ∃ text, (key, text) ∈ error_descriptions.
Proof.
  intros Hk.
  assert (Hc : key ∈ error_descriptions.*1)
    by (rewrite error_descriptions_keys, elem_of_seqZ; lia).
  apply list_elem_of_fmap in Hc as [[k text] [-> Hin]].
  by exists text.
Qed.

Lemma error_descriptions_nonempty (key : Z) (text : string) :
  (key, text) ∈ error_descriptions → text ≠ EmptyString.
Proof.
  intros Hin. unfold error_descriptions in Hin.
  repeat (apply elem_of_cons in Hin as [[= -> ->] | Hin]; [discriminate|]).
  by apply elem_of_nil in Hin.
Qed.


(** ** Running the commands *)

Section Properties.
Context {B : Type} `{!AdvertisingDataBuilder B}.
Implicit Types w : @World B.

Lemma set_error_table_same w : set_error_table (error_table w) w = w.
Proof. by destruct w. Qed.

Lemma ToString_table key table : (ToString key table).2 = table.
Proof. unfold ToString. by destruct (table !! key). Qed.

Lemma print_error_run what error w :
  print_error what error w =
    ((), set_console
           (console w ++ [ErrorLine what error (ToString error (error_table w)).1]) w).
Proof.
  unfold print_error, printf, modify, mbind, M_bind.
  pose proof (ToString_table error (error_table w)) as Ht.
  destruct (ToString error (error_table w)) as [s t]; simpl in *; subst t.
  by rewrite set_error_table_same.
Qed.

Lemma post_decrement_and_wrap_run w :
  post_decrement_and_wrap w = ((), set_level (next_level (m_TheBatteryLevel w)) w).
Proof.
  unfold post_decrement_and_wrap, post_decrement, next_level, mbind, M_bind.
  by destruct (m_TheBatteryLevel w =? 10).
Qed.

(** One tick in closed form: the level moves first; the builder is asked
    to replace the service data; only if it accepts is the Gap called. *)
Lemma update_battery_level_run w :
  let v := next_level (m_TheBatteryLevel w) in
  let sb := setServiceData UUID_BATTERY_SERVICE [v] (m_AdvertisingDataBuilder w) in
  let w1 := set_builder sb.2 (set_level v w) in
  let sg := gap_invoke
              (setAdvertisingPayload LEGACY_ADVERTISING_HANDLE (getAdvertisingData sb.2))
              (gap (m_BluetoothLowEnergyStack w)) in
  let w2 := set_stack (set_gap sg.2 (m_BluetoothLowEnergyStack w)) w1 in
  exec update_battery_level w =
    if is_error sb.1 then
      exec (print_error "Error! _adv_data_builder.setServiceData() failed:" sb.1) w1
    else if is_error sg.1 then
      exec (print_error "Error! _ble.gap().setAdvertisingPayload() failed:" sg.1) w2
    else w2.
Proof.
  intros v sb w1 sg w2. subst w2 w1 sg.
  unfold exec at 1. unfold update_battery_level.
  unfold mbind at 1. unfold M_bind at 1.
  rewrite post_decrement_and_wrap_run. fold v.
  unfold mbind, M_bind, gets, builder_call, gap_call. cbn -[gap_invoke]. fold sb.
  destruct sb as [e1 b1]. cbn -[gap_invoke].
  destruct (is_error e1); [reflexivity|]. cbn -[gap_invoke].
  destruct (gap_invoke _ _) as [e2 g2]. cbn.
  by destruct (is_error e2).
Qed.

Lemma update_battery_level_level w :
  m_TheBatteryLevel (exec update_battery_level w) = next_level (m_TheBatteryLevel w).
Proof.
  rewrite update_battery_level_run. cbv zeta.
  repeat case_match; unfold exec; rewrite ?print_error_run; reflexivity.
Qed.

Lemma update_battery_level_queue w :
  m_SharedEventQueue (exec update_battery_level w) = m_SharedEventQueue w.
Proof.
  rewrite update_battery_level_run. cbv zeta.
  repeat case_match; unfold exec; rewrite ?print_error_run; reflexivity.
Qed.

Lemma ticks_level k w :
  m_TheBatteryLevel (ticks k w) = Nat.iter k next_level (m_TheBatteryLevel w).
Proof.
  induction k as [|k IH]; [reflexivity|].
  change (ticks (S k) w) with (exec update_battery_level (ticks k w)).
  rewrite update_battery_level_level, IH. reflexivity.
Qed.

Lemma is_error_true e : is_error e = true ↔ e ≠ BLE_ERROR_NONE.
Proof. unfold is_error, BLE_ERROR_NONE. destruct (Z.eqb_spec e 0); naive_solver. Qed.

Lemma is_error_false e : is_error e = false ↔ e = BLE_ERROR_NONE.
Proof. unfold is_error, BLE_ERROR_NONE. destruct (Z.eqb_spec e 0); naive_solver. Qed.

End Properties.

(** ** The battery level *)

Lemma next_level_step (v : Z) :
  11 <= v <= 100 → next_level v = v - 1.
Proof.
  intros Hv. unfold next_level.
  destruct (Z.eqb_spec v 10) as [->|_]; [lia|].
  apply Z.mod_small. lia.
Qed.

Lemma next_level_wrap : next_level 10 = 100.
Proof. reflexivity. Qed.

Lemma next_level_range (v : Z) :
  10 <= v <= 100 → 10 <= next_level v <= 100.
Proof.
  intros Hv. destruct (decide (v = 10)) as [->|Hne].
  - rewrite next_level_wrap. lia.
  - rewrite next_level_step by lia. lia.
Qed.

Lemma iter_next_level_range (n : nat) (v : Z) :
  10 <= v <= 100 → 10 <= Nat.iter n next_level v <= 100.
Proof.
  intros Hv. induction n as [|n IH]; [exact Hv|].
  cbn [Nat.iter]. rewrite Nat.iter_succ. by apply next_level_range.
Qed.

(** The first descent: 50, 49, ..., 10. *)
Lemma iter_next_level_descent (k : nat) :
  (k <= 40)%nat → Nat.iter k next_level 50 = 50 - Z.of_nat k.
Proof.
  induction k as [|k IH]; intros Hk; [reflexivity|].
  rewrite Nat.iter_succ, IH by lia.
  rewrite next_level_step by lia. lia.
Qed.

(** From tick 41 on: 100, 99, ..., 10, again and again. *)
Lemma iter_next_level_cycle (m : nat) :
  Nat.iter (41 + m) next_level 50 = 100 - Z.of_nat m `mod` 91.
Proof.
  induction m as [|m IH].
  - change (41 + 0)%nat with (S 40).
    rewrite Nat.iter_succ, iter_next_level_descent by lia. reflexivity.
  - replace (41 + S m)%nat with (S (41 + m)) by lia.
    rewrite Nat.iter_succ, IH.
    pose proof (Z.mod_pos_bound (Z.of_nat m) 91 ltac:(lia)) as Hb.
    destruct (decide (Z.of_nat m `mod` 91 = 90)) as [He|Hne].
    + rewrite He. change (100 - 90) with 10. rewrite next_level_wrap.
      replace (Z.of_nat (S m)) with (Z.of_nat m + 1) by lia.
      rewrite <- Zplus_mod_idemp_l, He. reflexivity.
    + rewrite next_level_step by lia.
      replace (Z.of_nat (S m)) with (Z.of_nat m + 1) by lia.
      rewrite <- Zplus_mod_idemp_l.
      rewrite (Z.mod_small (Z.of_nat m `mod` 91 + 1)) by lia. lia.
Qed.

Section BatteryLevel.
Context {B : Type} `{!AdvertisingDataBuilder B}.
Implicit Types w : @World B.

(** C1 (amended): one run of [update_battery_level] maps the level [v] to
    100 when [v] itself equals 10, and to [v - 1] (as an 8-bit value)
    otherwise: the operand of the comparison is the level before the
    decrement, and the comparison is an equality.  This holds whatever the
    builder and the Gap answer during the tick. *)
Theorem update_battery_level_compares_before_decrement w :
  m_TheBatteryLevel (exec update_battery_level w) =
    if m_TheBatteryLevel w =? 10 then 100 else (m_TheBatteryLevel w - 1) `mod` 256.
Proof. apply update_battery_level_level. Qed.

(** C2: from the constructor's level 50, the level after tick [k] is
    [50 - k] for [k] in 1..40 (10 after tick 40), 100 after tick 41, and
    from then on the sequence repeats with period 91 and no shorter
    period: from tick 41 on it is 100 minus the number of ticks since,
    modulo 91. *)
Theorem battery_sequence (ble : BLE) (event_queue : EventQueue) :
  let level (k : nat) : Z :=
    m_TheBatteryLevel (ticks k (BluetoothLowEnergyEncapsulation ble event_queue)) in
  level 0%nat = 50 ∧
  (∀ k : nat, (1 <= k <= 40)%nat → level k = 50 - Z.of_nat k) ∧
  level 40%nat = 10 ∧
  level 41%nat = 100 ∧
  (∀ k : nat, (41 <= k)%nat → level k = 100 - Z.of_nat (k - 41) `mod` 91) ∧
  (∀ k : nat, (41 <= k)%nat → level (k + 91)%nat = level k) ∧
  (∀ k d : nat, (41 <= k)%nat → (0 < d < 91)%nat → level (k + d)%nat ≠ level k).
Proof.
  intros level.
  assert (Hlevel : ∀ k, level k = Nat.iter k next_level 50)
    by (intros k; unfold level; by rewrite ticks_level).
  assert (Hcycle : ∀ k : nat, (41 <= k)%nat →
            level k = 100 - Z.of_nat (k - 41) `mod` 91).
  { intros k Hk. rewrite Hlevel.
    rewrite <- iter_next_level_cycle. f_equal. lia. }
  split_and!.
  - by rewrite Hlevel.
  - intros k Hk. rewrite Hlevel. apply iter_next_level_descent. lia.
  - rewrite Hlevel. by rewrite iter_next_level_descent by lia.
  - by rewrite Hcycle by lia.
  - exact Hcycle.
  - intros k Hk. rewrite !Hcycle by lia.
    replace (Z.of_nat (k + 91 - 41)) with (Z.of_nat (k - 41) + 1 * 91) by lia.
    by rewrite Z.mod_add by lia.
  - intros k d Hk Hd. rewrite !Hcycle by lia.
    replace (Z.of_nat (k + d - 41)) with (Z.of_nat (k - 41) + Z.of_nat d) by lia.
    intros Heq.
    assert (Hm : (Z.of_nat (k - 41) + Z.of_nat d) `mod` 91 = Z.of_nat (k - 41) `mod` 91) by lia.
    clear Heq. revert Hm.
    generalize (Z.of_nat (k - 41)). intros a Hm.
    assert (Hd' : 0 < Z.of_nat d < 91) by lia.
    revert Hm Hd'. generalize (Z.of_nat d). clear. intros b Hm Hb.
    Z.div_mod_to_equations. nia.
Qed.

End BatteryLevel.

(** ** The controller *)

Section Controller.
Context {B : Type} `{!AdvertisingDataBuilder B}.
Implicit Types w : @World B.

Lemma exec_bind {A C : Type} (m : M A) (f : A → M C) w :
  exec (m ≫= f) w = exec (f (m w).1) (m w).2.
Proof. unfold exec, mbind, M_bind. by destruct (m w). Qed.

Lemma on_init_complete_failure_run error w :
  error ≠ BLE_ERROR_NONE →
  on_init_complete error w =
    ((), set_console
           (console w ++ [ErrorLine "Error! BLE initialization failed:" error
                            (ToString error (error_table w)).1]) w).
Proof.
  intros He. unfold on_init_complete.
  destruct (Z.eqb_spec error BLE_ERROR_NONE) as [|_]; [done|].
  apply print_error_run.
Qed.

(** [start_advertising] in closed form.  The status of
    [setAdvertisingScanResponse] ([r1.1]) and those of the builder's
    setters do not occur on the right-hand side. *)
Lemma start_advertising_run w :
  let b1 := (setManufacturerSpecificData [0xAD; 0xDE; 0xBE; 0xEF]
               (m_AdvertisingDataBuilder w)).2 in
  let r1 := gap_invoke
              (setAdvertisingScanResponse LEGACY_ADVERTISING_HANDLE (getAdvertisingData b1))
              (gap (m_BluetoothLowEnergyStack w)) in
  let b2 := (setServiceData UUID_BATTERY_SERVICE [m_TheBatteryLevel w]
               (setName DEVICE_NAME (setFlags (clear b1)).2).2).2 in
  let r2 := gap_invoke
              (setAdvertisingParameters LEGACY_ADVERTISING_HANDLE
                 {| adv_type := SCANNABLE_UNDIRECTED; adv_interval_ms := 1000 |}) r1.2 in
  let r3 := gap_invoke
              (setAdvertisingPayload LEGACY_ADVERTISING_HANDLE (getAdvertisingData b2)) r2.2 in
  let r4 := gap_invoke (startAdvertising LEGACY_ADVERTISING_HANDLE) r3.2 in
  let after g := set_stack (set_gap g (m_BluetoothLowEnergyStack w)) (set_builder b2 w) in
  exec start_advertising w =
    if is_error r2.1 then
      exec (print_error "Error! _ble.gap().setAdvertisingParameters() failed:" r2.1) (after r2.2)
    else if is_error r3.1 then
      exec (print_error "Error! _ble.gap().setAdvertisingPayload() failed:" r3.1) (after r3.2)
    else if is_error r4.1 then
      exec (print_error "Error! _ble.gap().startAdvertising() failed:" r4.1) (after r4.2)
    else
      exec (call_every 1000 UpdateBatteryLevel) (after r4.2).
Proof.
  intros b1 r1 b2 r2 r3 r4 after. subst after r4 r3 r2 b2 r1 b1.
  unfold exec at 1. unfold start_advertising.
  unfold mbind, M_bind, gets, modify, builder_call, gap_call.
  cbn -[gap_invoke].
  destruct (setManufacturerSpecificData _ _) as [s1 b1]. cbn -[gap_invoke].
  destruct (gap_invoke _ _) as [e1 g1]. cbn -[gap_invoke].
  destruct (setFlags _) as [s2 b2]. cbn -[gap_invoke].
  destruct (setName _ _) as [s3 b3]. cbn -[gap_invoke].
  destruct (setServiceData _ _ _) as [s4 b4]. cbn -[gap_invoke].
  destruct (gap_invoke _ g1) as [e2 g2]. cbn -[gap_invoke].
  destruct (is_error e2); [reflexivity|]. cbn -[gap_invoke].
  destruct (gap_invoke _ g2) as [e3 g3]. cbn -[gap_invoke].
  destruct (is_error e3); [reflexivity|]. cbn -[gap_invoke].
  destruct (gap_invoke _ g3) as [e4 g4]. cbn -[gap_invoke].
  destruct (is_error e4); reflexivity.
Qed.

Lemma gap_invoke_calls c g :
  gap_calls (gap_invoke c g).2 = gap_calls g ++ [c].
Proof.
  unfold gap_invoke. cbn.
  destruct (hd BLE_ERROR_NONE (gap_replies g) =? BLE_ERROR_NONE); [|reflexivity].
  by destruct c.
Qed.

Lemma gap_invoke_replies c g :
  (gap_invoke c g).1 = hd BLE_ERROR_NONE (gap_replies g) ∧
  gap_replies (gap_invoke c g).2 = tail (gap_replies g).
Proof.
  unfold gap_invoke. cbn. split; [reflexivity|].
  destruct (hd BLE_ERROR_NONE (gap_replies g) =? BLE_ERROR_NONE); [|reflexivity].
  by destruct c.
Qed.

(** A call the Gap answers with a non-success status changes nothing the
    Gap has in effect. *)
Lemma gap_invoke_rejected c g :
  (gap_invoke c g).1 ≠ BLE_ERROR_NONE →
  scan_response (gap_invoke c g).2 = scan_response g ∧
  parameters (gap_invoke c g).2 = parameters g ∧
  advertising_payload (gap_invoke c g).2 = advertising_payload g ∧
  advertising (gap_invoke c g).2 = advertising g.
Proof.
  unfold gap_invoke. cbn. intros He.
  destruct (Z.eqb_spec (hd BLE_ERROR_NONE (gap_replies g)) BLE_ERROR_NONE); done.
Qed.

(** One call, on a Gap written out field by field. *)
Lemma gap_invoke_cons c e rest calls sr pa ap ad :
  gap_invoke c {| gap_replies := e :: rest; gap_calls := calls; scan_response := sr;
                  parameters := pa; advertising_payload := ap; advertising := ad |} =
    (e, if e =? BLE_ERROR_NONE
        then gap_accept c {| gap_replies := rest; gap_calls := calls ++ [c];
                             scan_response := sr; parameters := pa;
                             advertising_payload := ap; advertising := ad |}
        else {| gap_replies := rest; gap_calls := calls ++ [c]; scan_response := sr;
                parameters := pa; advertising_payload := ap; advertising := ad |}).
Proof. reflexivity. Qed.

End Controller.

Section Setup.
Context {B : Type} `{!AdvertisingDataBuilder B}.
Implicit Types w : @World B.

(** C3 (what the code does when the scan-response call fails): if the Gap
    answers [setAdvertisingScanResponse] with a non-success status [e] and
    the three calls after it with success, [start_advertising] prints
    nothing, goes on to make all three remaining Gap calls, leaves the
    device advertising without the scan response, and registers the
    battery timer. *)
Theorem scan_response_status_ignored (e : Z) (rest : list Z) w :
  gap_replies (gap (m_BluetoothLowEnergyStack w)) = e :: 0 :: 0 :: 0 :: rest →
  e ≠ BLE_ERROR_NONE →
  let w' := exec start_advertising w in
  let g := gap (m_BluetoothLowEnergyStack w) in
  let g' := gap (m_BluetoothLowEnergyStack w') in
  console w' = console w ∧
  (∃ response params payload,
      gap_calls g' = gap_calls g ++
        [setAdvertisingScanResponse LEGACY_ADVERTISING_HANDLE response;
         setAdvertisingParameters LEGACY_ADVERTISING_HANDLE params;
         setAdvertisingPayload LEGACY_ADVERTISING_HANDLE payload;
         startAdvertising LEGACY_ADVERTISING_HANDLE]) ∧
  scan_response g' = scan_response g ∧
  advertising g' = true ∧
  timers (m_SharedEventQueue w') =
    timers (m_SharedEventQueue w) ++
      [{| period := 1000; due := now (m_SharedEventQueue w) + 1000;
          callback := UpdateBatteryLevel |}].
Proof.
  intros Hr He w' g g'. subst g' w'.
  rewrite start_advertising_run. cbv zeta.
  apply Z.eqb_neq in He.
  destruct w as [t [ir ip eh [replies calls sr pa ap ad]] q lv b c].
  cbn in Hr, g. subst replies g.
  cbn -[gap_invoke]. rewrite gap_invoke_cons, He. cbn -[gap_invoke].
  do 3 (rewrite gap_invoke_cons; cbn -[gap_invoke]).
  split_and!; [reflexivity| |reflexivity..].
  do 3 eexists. rewrite <- !app_assoc. reflexivity.
Qed.

End Setup.

(** ** The dispatch loop *)

Section Dispatch.
Context {B : Type} `{!AdvertisingDataBuilder B}.
Implicit Types w : @World B.

Lemma exec_then (m k : M ()) w : exec (m;; k) w = exec k (exec m w).
Proof. apply exec_bind. Qed.

Lemma run_posted_none w :
  posted (m_SharedEventQueue w) = [] → exec run_posted w = w.
Proof.
  destruct w as [t s [nw ps ts] lv b c]. cbn. intros ->. reflexivity.
Qed.

(** A round with nothing posted and no timer only moves the clock. *)
Lemma dispatch_round_idle w :
  posted (m_SharedEventQueue w) = [] →
  timers (m_SharedEventQueue w) = [] →
  exec dispatch_round w =
    set_queue {| now := now (m_SharedEventQueue w) + 1000; posted := []; timers := [] |} w.
Proof.
  destruct w as [t s [nw ps ts] lv b c]. cbn. intros -> ->. reflexivity.
Qed.

Lemma dispatch_rounds_idle (n : nat) w :
  posted (m_SharedEventQueue w) = [] →
  timers (m_SharedEventQueue w) = [] →
  exec (dispatch_rounds n) w =
    set_queue {| now := now (m_SharedEventQueue w) + 1000 * Z.of_nat n;
                 posted := []; timers := [] |} w.
Proof.
  revert w. induction n as [|n IH]; intros w Hp Ht.
  - destruct w as [t s [nw ps ts] lv b c]. cbn in *. subst.
    unfold exec, set_queue. cbn. by rewrite Z.add_0_r.
  - cbn [dispatch_rounds]. rewrite exec_then, dispatch_round_idle by done.
    rewrite IH by done. unfold set_queue. cbn. do 2 f_equal. lia.
Qed.

Lemma a_second_later_ticking q : ticking (a_second_later q).
Proof. by split. Qed.

(** A round of the queue [start_advertising] leaves runs
    [update_battery_level] once. *)
Lemma dispatch_round_ticking w :
  ticking (m_SharedEventQueue w) →
  exec dispatch_round w =
    exec update_battery_level (set_queue (a_second_later (m_SharedEventQueue w)) w).
Proof.
  intros [Hp Ht].
  unfold dispatch_round. rewrite !exec_then.
  set (w1 := exec (modify _) w).
  rewrite exec_bind. cbn [gets fst snd].
  rewrite !exec_then.
  assert (Hq : m_SharedEventQueue w1 =
               {| now := now (m_SharedEventQueue w) + 1000; posted := [];
                  timers := timers (m_SharedEventQueue w) |}).
  { subst w1. destruct w as [t s [nw ps ts] lv b c]. cbn in *. by subst. }
  rewrite Hq, Ht. cbn [now timers posted fmap list_fmap].
  rewrite filter_cons_True by (cbn; lia). rewrite filter_nil.
  cbn [fmap list_fmap callback run_events run_event].
  rewrite exec_then.
  assert (Hw2 : exec (modify (set_queue
                  {| now := now (m_SharedEventQueue w) + 1000; posted := [];
                     timers := [rearm {| period := 1000;
                                         due := now (m_SharedEventQueue w) + 1000;
                                         callback := UpdateBatteryLevel |}
                                  (now (m_SharedEventQueue w) + 1000)] |})) w1
                = set_queue (a_second_later (m_SharedEventQueue w)) w).
  { subst w1. unfold rearm. cbn [due period callback].
    rewrite Z.leb_refl. by destruct w. }
  rewrite Hw2.
  set (w3 := exec update_battery_level _).
  change (exec (mret ()) w3) with w3.
  apply run_posted_none.
  subst w3. by rewrite update_battery_level_queue.
Qed.

Lemma dispatch_rounds_level (n : nat) w :
  ticking (m_SharedEventQueue w) →
  m_TheBatteryLevel (exec (dispatch_rounds n) w) =
    Nat.iter n next_level (m_TheBatteryLevel w).
Proof.
  revert w. induction n as [|n IH]; intros w Hq; [reflexivity|].
  cbn [dispatch_rounds]. rewrite exec_then, dispatch_round_ticking by done.
  rewrite IH.
  - rewrite update_battery_level_level. by rewrite Nat.iter_succ_r.
  - rewrite update_battery_level_queue. apply a_second_later_ticking.
Qed.

End Dispatch.

Section InitFailure.
Context {B : Type} `{!AdvertisingDataBuilder B} {build : Build}.
Implicit Types w : @World B.

(** The program with a failing initialisation, at the moment the loop has
    run the posted completion. *)
Lemma start_init_failure (error : Z) (replies : list Z) (n : nat) :
  error ≠ BLE_ERROR_NONE →
  main (B:=B) (BLE_Instance error replies) n =
    {| error_table := gs_ErrorCodesMap;
       m_BluetoothLowEnergyStack :=
         {| init_result := error; init_pending := false; events_hook := true;
            gap := gap (BLE_Instance error replies) |};
       m_SharedEventQueue := {| now := 1000 * Z.of_nat n; posted := []; timers := [] |};
       m_TheBatteryLevel := 50;
       m_AdvertisingDataBuilder := builder_new LEGACY_ADVERTISING_MAX_SIZE;
       console := banner_lines ++
                  [ErrorLine "Error! BLE initialization failed:" error
                     (ToString error gs_ErrorCodesMap).1] |}.
Proof.
  intros He. unfold main, start, dispatch_forever, banner_lines.
  destruct MBED_VERSION as [[[major minor] patch]|].
  all: rewrite !exec_then.
  all: set (w0 := exec run_posted _).
  all: match goal with
       | |- _ = {| error_table := ?t; m_BluetoothLowEnergyStack := ?s;
                   m_SharedEventQueue := _; m_TheBatteryLevel := ?l;
                   m_AdvertisingDataBuilder := ?b; console := ?c |} =>
           assert (Hw0 : w0 =
             {| error_table := t; m_BluetoothLowEnergyStack := s;
                m_SharedEventQueue := {| now := 0; posted := []; timers := [] |};
                m_TheBatteryLevel := l; m_AdvertisingDataBuilder := b; console := c |})
       end.
  1, 3: subst w0; unfold exec, run_posted, BLE_init, schedule_ble_events, call, printf,
      modify, gets, mbind, M_bind, mret, M_ret;
    cbn -[on_init_complete gs_ErrorCodesMap];
    unfold processEvents, modify, gets, mbind, M_bind, mret, M_ret;
    cbn -[on_init_complete gs_ErrorCodesMap];
    rewrite on_init_complete_failure_run by done; reflexivity.
  all: rewrite Hw0, dispatch_rounds_idle by done; reflexivity.
Qed.

End InitFailure.

(** ** The periodic payload patch *)

Section Patch.
Context {B : Type} `{!AdvertisingDataBuilder B}.
Implicit Types w : @World B.

Lemma service_data_status_eq w :
  service_data_status w =
    (setServiceData UUID_BATTERY_SERVICE [next_level (m_TheBatteryLevel w)]
       (m_AdvertisingDataBuilder w)).1.
Proof.
  unfold service_data_status, exec. by rewrite post_decrement_and_wrap_run.
Qed.

(** A tick whose patch fails, in full: which line is printed, which call
    the Gap saw, and what the Gap keeps. *)
Lemma update_battery_level_failure w :
  patch_status w ≠ BLE_ERROR_NONE →
  let w' := exec update_battery_level w in
  let g := gap (m_BluetoothLowEnergyStack w) in
  let g' := gap (m_BluetoothLowEnergyStack w') in
  let sb := setServiceData UUID_BATTERY_SERVICE [next_level (m_TheBatteryLevel w)]
              (m_AdvertisingDataBuilder w) in
  console w' =
    console w ++
      [ErrorLine (if is_error (service_data_status w)
                  then "Error! _adv_data_builder.setServiceData() failed:"
                  else "Error! _ble.gap().setAdvertisingPayload() failed:")
         (patch_status w) (ToString (patch_status w) (error_table w)).1] ∧
  gap_calls g' =
    gap_calls g ++
      (if is_error (service_data_status w) then []
       else [setAdvertisingPayload LEGACY_ADVERTISING_HANDLE (getAdvertisingData sb.2)]) ∧
  scan_response g' = scan_response g ∧
  parameters g' = parameters g ∧
  advertising_payload g' = advertising_payload g ∧
  advertising g' = advertising g.
Proof.
  intros Hf w' g g' sb. subst w' g' g.
  rewrite update_battery_level_run. cbv zeta. fold sb.
  unfold patch_status, next_gap_status in *.
  rewrite service_data_status_eq in *. fold sb in Hf |- *.
  destruct (is_error sb.1) eqn:He1.
  - unfold exec. rewrite print_error_run. cbn. rewrite app_nil_r. done.
  - set (c := setAdvertisingPayload _ _).
    destruct (gap_invoke_replies c (gap (m_BluetoothLowEnergyStack w))) as [Hs _].
    rewrite <- Hs in Hf |- *.
    destruct (gap_invoke_rejected c _ Hf) as (? & ? & ? & ?).
    apply is_error_true in Hf as Het. rewrite Het.
    unfold exec. rewrite print_error_run. cbn -[gap_invoke].
    by rewrite gap_invoke_calls.
Qed.

(** A tick whose patch succeeds: the builder holds the new level and the
    Gap has accepted the builder's payload. *)
Lemma update_battery_level_success w :
  patch_status w = BLE_ERROR_NONE →
  let w' := exec update_battery_level w in
  setServiceData UUID_BATTERY_SERVICE [next_level (m_TheBatteryLevel w)]
    (m_AdvertisingDataBuilder w) = (BLE_ERROR_NONE, m_AdvertisingDataBuilder w') ∧
  advertising_payload (gap (m_BluetoothLowEnergyStack w')) =
    Some (getAdvertisingData (m_AdvertisingDataBuilder w')) ∧
  console w' = console w.
Proof.
  intros Hs w'. subst w'.
  rewrite update_battery_level_run. cbv zeta.
  unfold patch_status, next_gap_status in Hs.
  rewrite service_data_status_eq in Hs.
  destruct (setServiceData _ _ _) as [e1 b1] eqn:Hsb. cbn [fst snd] in *.
  destruct (is_error e1) eqn:He1.
  { apply is_error_true in He1. done. }
  apply is_error_false in He1 as ->.
  unfold gap_invoke. cbn [fst snd]. rewrite Hs. cbn. done.
Qed.

Lemma failing_ticks_payload (k : nat) w :
  failing_ticks k w →
  advertising_payload (gap (m_BluetoothLowEnergyStack (ticks k w))) =
    advertising_payload (gap (m_BluetoothLowEnergyStack w)).
Proof.
  revert w. induction k as [|k IH]; intros w Hk; [reflexivity|].
  destruct Hk as [Hf Hk].
  unfold ticks. rewrite Nat.iter_succ_r. fold (ticks k (exec update_battery_level w)).
  rewrite IH by done.
  by destruct (update_battery_level_failure w Hf) as (_ & _ & _ & _ & ? & _).
Qed.

(** C5: when the patch of a tick ends with a non-success status (from
    the builder's [setServiceData] or from the Gap's
    [setAdvertisingPayload]), the tick prints exactly one diagnostic with
    that status and its description, makes no call after the failing one
    (no Gap call at all when the builder refused, the one rejected call
    otherwise), leaves what the Gap has in effect (advertising payload,
    scan response, parameters, advertising state) untouched, and leaves
    the event queue as it was; with the battery timer armed, the following
    rounds of the loop go on running [update_battery_level]. *)
Theorem patch_failure_keeps_previous_payload w :
  patch_status w ≠ BLE_ERROR_NONE →
  let w' := exec update_battery_level w in
  let g := gap (m_BluetoothLowEnergyStack w) in
  let g' := gap (m_BluetoothLowEnergyStack w') in
  (∃ what, console w' =
             console w ++ [ErrorLine what (patch_status w)
                             (ToString (patch_status w) (error_table w)).1]) ∧
  (if is_error (service_data_status w)
   then gap_calls g' = gap_calls g
   else ∃ payload, gap_calls g' =
                     gap_calls g ++ [setAdvertisingPayload LEGACY_ADVERTISING_HANDLE payload]) ∧
  advertising_payload g' = advertising_payload g ∧
  scan_response g' = scan_response g ∧
  parameters g' = parameters g ∧
  advertising g' = advertising g ∧
  m_SharedEventQueue w' = m_SharedEventQueue w ∧
  (ticking (m_SharedEventQueue w) →
   ∀ n : nat, m_TheBatteryLevel (exec (dispatch_rounds n) w') =
              Nat.iter n next_level (m_TheBatteryLevel w')).
Proof.
  intros Hf w' g g'.
  destruct (update_battery_level_failure w Hf) as (Hc & Hcalls & Hsr & Hp & Hap & Had).
  split_and!; try done.
  - eexists. exact Hc.
  - subst g g' w'. destruct (is_error (service_data_status w)).
    + by rewrite Hcalls, app_nil_r.
    + eexists. exact Hcalls.
  - apply update_battery_level_queue.
  - intros Hq n. apply dispatch_rounds_level.
    subst w'. by rewrite update_battery_level_queue.
Qed.

(** C9: a tick whose patch fails has advanced the battery level all the
    same, and the Gap keeps the payload it had.  After [k] failing ticks
    the level stands [k] steps on, nothing of it published; the tick that
    succeeds next hands the builder, and through it the Gap, the level
    [k + 1] steps on, so the [k] levels in between never reach the Gap. *)
Theorem failed_ticks_are_skipped (k : nat) w :
  failing_ticks k w →
  patch_status (ticks k w) = BLE_ERROR_NONE →
  let wk := ticks k w in
  let w' := exec update_battery_level wk in
  let published := Nat.iter (S k) next_level (m_TheBatteryLevel w) in
  (∀ i : nat, (i <= k)%nat →
     m_TheBatteryLevel (ticks i w) = Nat.iter i next_level (m_TheBatteryLevel w)) ∧
  advertising_payload (gap (m_BluetoothLowEnergyStack wk)) =
    advertising_payload (gap (m_BluetoothLowEnergyStack w)) ∧
  m_TheBatteryLevel w' = published ∧
  setServiceData UUID_BATTERY_SERVICE [published] (m_AdvertisingDataBuilder wk) =
    (BLE_ERROR_NONE, m_AdvertisingDataBuilder w') ∧
  advertising_payload (gap (m_BluetoothLowEnergyStack w')) =
    Some (getAdvertisingData (m_AdvertisingDataBuilder w')).
Proof.
  intros Hk Hs wk w' published.
  destruct (update_battery_level_success wk Hs) as (Hsb & Hap & _).
  assert (Hlevel : next_level (m_TheBatteryLevel wk) = published).
  { subst wk published. by rewrite ticks_level, Nat.iter_succ. }
  split_and!.
  - intros i _. apply ticks_level.
  - by apply failing_ticks_payload.
  - subst w'. by rewrite update_battery_level_level.
  - by rewrite <- Hlevel.
  - exact Hap.
Qed.

End Patch.

(** ** Initialisation failure, seen from [main] *)

Section Failure.
Context {B : Type} `{!AdvertisingDataBuilder B} {build : Build}.
Implicit Types w : @World B.

(** C4: when the completion callback delivers a non-success code,
    [on_init_complete] prints one diagnostic (the code and its
    description) and returns: the stack, and so the Gap and the log of
    calls made to it, the event queue and its timers, the battery level
    and the builder are as they were.  In the program as a whole, however
    long the loop runs afterwards, no Gap call is made and no timer is
    registered. *)
Theorem init_failure_stops (error : Z) w :
  error ≠ BLE_ERROR_NONE →
  let w' := exec (on_init_complete error) w in
  console w' = console w ++ [ErrorLine "Error! BLE initialization failed:" error
                               (ToString error (error_table w)).1] ∧
  m_BluetoothLowEnergyStack w' = m_BluetoothLowEnergyStack w ∧
  m_SharedEventQueue w' = m_SharedEventQueue w ∧
  m_TheBatteryLevel w' = m_TheBatteryLevel w ∧
  m_AdvertisingDataBuilder w' = m_AdvertisingDataBuilder w ∧
  (∀ (replies : list Z) (n : nat),
     let p := main (B:=B) (BLE_Instance error replies) n in
     gap_calls (gap (m_BluetoothLowEnergyStack p)) = [] ∧
     advertising (gap (m_BluetoothLowEnergyStack p)) = false ∧
     timers (m_SharedEventQueue p) = []).
Proof.
  intros He w'. subst w'. unfold exec.
  rewrite on_init_complete_failure_run by done.
  do 5 (split; [done|]).
  intros replies n. by rewrite start_init_failure.
Qed.

(** C10: [start] requests the initialisation and enters the loop whatever
    the outcome: the state after [n] rounds is [n] rounds of dispatch away
    from the state in which the posted completion has run.  When the
    completion reports a failure, after any number [n] of rounds the loop
    is still turning (its clock reads [n] seconds and one more round leads
    to the state after [n + 1] rounds) with nothing posted and no timer
    registered, the Gap untouched (no call, nothing configured, not
    advertising) and the battery level at 50, in every build. *)
Theorem init_failure_keeps_dispatching (error : Z) (replies : list Z) (n : nat) :
  error ≠ BLE_ERROR_NONE →
  let run (k : nat) := main (B:=B) (BLE_Instance error replies) k in
  (∀ (ble : BLE) (k : nat), main (B:=B) ble k = exec (dispatch_rounds k) (main ble 0)) ∧
  m_SharedEventQueue (run n) =
    {| now := 1000 * Z.of_nat n; posted := []; timers := [] |} ∧
  exec dispatch_round (run n) = run (S n) ∧
  gap (m_BluetoothLowEnergyStack (run n)) = gap (BLE_Instance error replies) ∧
  gap_calls (gap (m_BluetoothLowEnergyStack (run n))) = [] ∧
  advertising (gap (m_BluetoothLowEnergyStack (run n))) = false ∧
  init_pending (m_BluetoothLowEnergyStack (run n)) = false ∧
  m_TheBatteryLevel (run n) = 50.
Proof.
  intros He run. subst run. cbv beta.
  split.
  { intros ble k. unfold main, start, dispatch_forever.
    rewrite !exec_then. reflexivity. }
  rewrite !start_init_failure by done.
  split_and!; try reflexivity.
  rewrite dispatch_round_idle by reflexivity.
  unfold set_queue. cbn. do 2 f_equal. lia.
Qed.

End Failure.

(** ** The statuses [start_advertising] does check *)

Section CheckedCalls.
Context {B : Type} `{!AdvertisingDataBuilder B}.
Implicit Types w : @World B.

(** If the [i]-th of the three checked calls (parameters, payload, start)
    is the first one the Gap rejects, [start_advertising] prints the
    diagnostic of that call and returns: no Gap call follows, the device
    is not set advertising by this run, no timer is registered. *)
Lemma checked_status_returns_early (i : nat) (r1 e : Z) (rest : list Z) w :
  (i <= 2)%nat →
  gap_replies (gap (m_BluetoothLowEnergyStack w)) = r1 :: replicate i 0 ++ e :: rest →
  e ≠ BLE_ERROR_NONE →
  let w' := exec start_advertising w in
  let g := gap (m_BluetoothLowEnergyStack w) in
  let g' := gap (m_BluetoothLowEnergyStack w') in
  console w' = console w ++ [ErrorLine (checked_call_message i) e (ToString e (error_table w)).1] ∧
  length (gap_calls g') = (length (gap_calls g) + 2 + i)%nat ∧
  last (gap_calls g') =
    nth_error
      [setAdvertisingParameters LEGACY_ADVERTISING_HANDLE
         {| adv_type := SCANNABLE_UNDIRECTED; adv_interval_ms := 1000 |};
       setAdvertisingPayload LEGACY_ADVERTISING_HANDLE
         (getAdvertisingData (m_AdvertisingDataBuilder w'));
       startAdvertising LEGACY_ADVERTISING_HANDLE] i ∧
  advertising g' = advertising g ∧
  m_SharedEventQueue w' = m_SharedEventQueue w.
Proof.
  intros Hi Hr He w' g g'. subst g' w'.
  rewrite start_advertising_run. cbv zeta.
  apply Z.eqb_neq in He.
  destruct w as [t [ir ip eh [replies calls sr pa ap ad]] q lv b c].
  cbn in Hr, g. subst replies g.
  cbn -[gap_invoke]. rewrite gap_invoke_cons.
  assert (Hie : is_error e = true) by (by apply is_error_true, Z.eqb_neq).
  destruct i as [|[|[|i]]]; [| | |lia];
    destruct (r1 =? BLE_ERROR_NONE); cbn -[gap_invoke is_error];
    repeat (rewrite gap_invoke_cons; cbn -[gap_invoke is_error]);
    rewrite ?He, ?Hie; cbn -[gap_invoke];
    unfold exec; rewrite print_error_run; cbn;
    rewrite !length_app, !last_snoc; cbn;
    (split_and!; [reflexivity|lia|reflexivity..]).
Qed.

End CheckedCalls.

(** ** The error classifier *)

(** C6: [ToString] is total: for every integer code it returns a text that
    is not empty and leaves the table as it found it (whatever the table).
    On the program's table the text is the row of the code for each of the
    fourteen enumerated codes, which are the codes 0 to 13, and the fixed
    warning text for every other code. *)
Theorem ToString_total (key : Z) :
  ∃ text : string,
    ToString key gs_ErrorCodesMap = (text, gs_ErrorCodesMap) ∧
    text ≠ EmptyString ∧
    (∀ description, (key, description) ∈ error_descriptions → text = description) ∧
    (key ∉ error_descriptions.*1 → text = not_an_error) ∧
    length error_descriptions = 14%nat ∧
    NoDup error_descriptions.*1 ∧
    (∀ table : gmap Z string, (ToString key table).2 = table).
Proof.
  assert (Hrest : length error_descriptions = 14%nat ∧ NoDup error_descriptions.*1 ∧
                  (∀ table : gmap Z string, (ToString key table).2 = table)).
  { split_and!; [reflexivity| |intros; apply ToString_table].
    rewrite error_descriptions_keys. apply NoDup_seqZ. }
  destruct (decide (0 <= key <= 13)) as [Hk|Hk].
  - destruct (error_descriptions_total key Hk) as [text Hin].
    exists text. unfold ToString.
    rewrite (gs_ErrorCodesMap_known key text Hin).
    split_and!; [reflexivity|by eapply error_descriptions_nonempty| | |apply Hrest..].
    + intros description Hd.
      apply gs_ErrorCodesMap_known in Hin, Hd. congruence.
    + intros Hn. exfalso. apply Hn.
      rewrite error_descriptions_keys, elem_of_seqZ. lia.
  - exists not_an_error. unfold ToString.
    rewrite (gs_ErrorCodesMap_unknown key Hk).
    split_and!; [reflexivity|discriminate| |reflexivity|apply Hrest..].
    intros description Hd. exfalso. apply Hk.
    assert (Hin : key ∈ error_descriptions.*1)
      by (apply list_elem_of_fmap; by exists (key, description)).
    rewrite error_descriptions_keys, elem_of_seqZ in Hin. lia.
Qed.

(** ** The undisturbed run *)

Lemma main_rounds {B : Type} `{!AdvertisingDataBuilder B} {build : Build}
    (ble : BLE) (k : nat) :
  main (B:=B) ble k = exec (dispatch_rounds k) (main ble 0).
Proof. unfold main, start, dispatch_forever. rewrite !exec_then. reflexivity. Qed.

Lemma main_rounds_advertising (replies : list Z) (k : nat) :
  main (B:=FieldBuilder) (build:=bare_build) (BLE_Instance BLE_ERROR_NONE replies) k =
    exec (dispatch_rounds k) (advertising_world replies).
Proof. unfold advertising_world. apply main_rounds. Qed.

Lemma update_battery_level_undisturbed (w : @World FieldBuilder) :
  gap_replies (gap (m_BluetoothLowEnergyStack w)) = [] →
  m_AdvertisingDataBuilder w =
    {| capacity := LEGACY_ADVERTISING_MAX_SIZE;
       elements := battery_payload (m_TheBatteryLevel w) |} →
  let w' := exec update_battery_level w in
  gap_replies (gap (m_BluetoothLowEnergyStack w')) = [] ∧
  m_AdvertisingDataBuilder w' =
    {| capacity := LEGACY_ADVERTISING_MAX_SIZE;
       elements := battery_payload (m_TheBatteryLevel w') |} ∧
  advertising_payload (gap (m_BluetoothLowEnergyStack w')) =
    Some (battery_payload (m_TheBatteryLevel w')).
Proof.
  intros Hr Hb w'. subst w'.
  rewrite update_battery_level_level.
  rewrite update_battery_level_run. cbv zeta. rewrite Hb.
  unfold gap_invoke. rewrite Hr. cbn. done.
Qed.

Lemma dispatch_rounds_undisturbed (n : nat) (w : @World FieldBuilder) :
  undisturbed w → undisturbed (exec (dispatch_rounds n) w).
Proof.
  revert w. induction n as [|n IH]; intros w Hw; [exact Hw|].
  cbn [dispatch_rounds]. rewrite exec_then. apply IH.
  destruct Hw as (Hq & Hr & Hb & _).
  rewrite dispatch_round_ticking by done.
  set (w1 := set_queue _ w).
  destruct (update_battery_level_undisturbed w1) as (? & ? & ?); [done..|].
  split_and!; try done.
  rewrite update_battery_level_queue. apply a_second_later_ticking.
Qed.

Lemma advertising_world_undisturbed : undisturbed (advertising_world []).
Proof. by split_and!. Qed.

(** The same in every build: the version line is on the console only. *)
Lemma main_zero_undisturbed {build : Build} :
  undisturbed (main (B:=FieldBuilder) (BLE_Instance BLE_ERROR_NONE []) 0) ∧
  m_TheBatteryLevel (main (B:=FieldBuilder) (BLE_Instance BLE_ERROR_NONE []) 0) = 50.
Proof.
  unfold undisturbed, ticking, main, MBED_VERSION.
  destruct build as [[[major minor] patch]|]; repeat split; reflexivity.
Qed.

(** C7: after any number of ticks from the constructor's level, whatever
    the builder, the stack and the queue, the level lies between 10 and
    100, both included.  In the run in which the initialisation succeeds
    and the Gap accepts every call, after [n] seconds the level is the
    [n]-th iterate of the tick from 50, it lies in that interval, and it is
    the battery byte of the payload the Gap has on air. *)
Theorem battery_level_range {build : Build} (n : nat) :
  (∀ (B : Type) (builder : AdvertisingDataBuilder B) (ble : BLE) (event_queue : EventQueue),
     10 <= m_TheBatteryLevel
             (ticks n (BluetoothLowEnergyEncapsulation (B:=B) ble event_queue)) <= 100) ∧
  (let w := main (B:=FieldBuilder) (BLE_Instance BLE_ERROR_NONE []) n in
   m_TheBatteryLevel w = Nat.iter n next_level 50 ∧
   10 <= m_TheBatteryLevel w <= 100 ∧
   advertising_payload (gap (m_BluetoothLowEnergyStack w)) =
     Some [Flags; CompleteLocalName "NUCLEO-WB55RG";
           ServiceData UUID_BATTERY_SERVICE [m_TheBatteryLevel w]]).
Proof.
  split.
  - intros B builder ble event_queue.
    rewrite ticks_level. apply iter_next_level_range. cbn. lia.
  - cbv zeta. rewrite main_rounds.
    destruct main_zero_undisturbed as [Hstart Hfifty].
    pose proof (dispatch_rounds_undisturbed n _ Hstart) as (Hq & _ & _ & Hair).
    pose proof (dispatch_rounds_level n _ (proj1 Hstart)) as Hlevel.
    rewrite Hfifty in Hlevel.
    set (w := exec (dispatch_rounds n) _) in *. clearbody w.
    split; [exact Hlevel|]. split; [|exact Hair].
    rewrite Hlevel. apply iter_next_level_range. lia.
Qed.

(** ** Concrete runs *)

(** C1 (as worded, refuted): the rule that decrements first and compares the
    decremented level with 10 sends 11 to 100 and 10 to 9, whereas one run
    of [update_battery_level] sends 11 to 10 and 10 to 100. *)
Lemma decrement_then_compare_counterexample :
  m_TheBatteryLevel (exec update_battery_level (set_level 11 (demo []))) = 10 ∧
  decrement_then_compare 11 = 100 ∧
  m_TheBatteryLevel (exec update_battery_level (set_level 10 (demo []))) = 100 ∧
  decrement_then_compare 10 = 9 ∧
  ¬ (∀ v : Z, m_TheBatteryLevel (exec update_battery_level (set_level v (demo []))) =
              decrement_then_compare v).
Proof.
  split_and!; [reflexivity..|].
  intros Hall. specialize (Hall 11). vm_compute in Hall. discriminate.
Qed.

Lemma battery_sequence_witness :
  let level (k : nat) := m_TheBatteryLevel (ticks k (demo [])) in
  level 7%nat = 43 ∧ level 132%nat = level 41%nat.
Proof.
  destruct (battery_sequence (B:=FieldBuilder) (BLE_Instance BLE_ERROR_NONE [])
              g_SharedEventQueue) as (_ & Hdescent & _ & _ & _ & Hperiod & _).
  split.
  - apply (Hdescent 7%nat). lia.
  - apply (Hperiod 41%nat). lia.
Defined.

Lemma scan_response_status_ignored_witness :
  let w := demo [BLE_ERROR_INVALID_PARAM; 0; 0; 0] in
  let w' := exec start_advertising w in
  gap_replies (gap (m_BluetoothLowEnergyStack w)) = [BLE_ERROR_INVALID_PARAM; 0; 0; 0] ∧
  BLE_ERROR_INVALID_PARAM ≠ BLE_ERROR_NONE ∧
  console w' = [] ∧
  scan_response (gap (m_BluetoothLowEnergyStack w')) = None ∧
  advertising (gap (m_BluetoothLowEnergyStack w')) = true ∧
  timers (m_SharedEventQueue w') =
    [{| period := 1000; due := 1000; callback := UpdateBatteryLevel |}].
Proof.
  pose proof (scan_response_status_ignored BLE_ERROR_INVALID_PARAM []
                (demo [BLE_ERROR_INVALID_PARAM; 0; 0; 0]) eq_refl ltac:(discriminate))
    as (Hconsole & _ & Hscan & Hadv & Htimers).
  split_and!; [reflexivity|discriminate|exact Hconsole|exact Hscan|exact Hadv|exact Htimers].
Defined.

Lemma init_failure_stops_witness :
  let w' := exec (on_init_complete BLE_ERROR_INITIALIZATION_INCOMPLETE) (demo []) in
  BLE_ERROR_INITIALIZATION_INCOMPLETE ≠ BLE_ERROR_NONE ∧
  console w' =
    [ErrorLine "Error! BLE initialization failed:" BLE_ERROR_INITIALIZATION_INCOMPLETE
       (quoted "The BLE subsystem has not completed its initialization")] ∧
  gap_calls (gap (m_BluetoothLowEnergyStack w')) = [] ∧
  timers (m_SharedEventQueue w') = [].
Proof.
  pose proof (init_failure_stops (build:=mbed_os_build)
                BLE_ERROR_INITIALIZATION_INCOMPLETE (demo [])
                ltac:(discriminate)) as (Hconsole & Hstack & Hqueue & _).
  split_and!; [discriminate| | |].
  - rewrite Hconsole. vm_compute. reflexivity.
  - rewrite Hstack. reflexivity.
  - rewrite Hqueue. reflexivity.
Defined.

Lemma patch_failure_keeps_previous_payload_witness :
  let w := advertising_world [0; 0; 0; 0; BLE_ERROR_INVALID_STATE] in
  let published w := advertising_payload (gap (m_BluetoothLowEnergyStack w)) in
  (patch_status w ≠ BLE_ERROR_NONE ∧
   published (exec update_battery_level w) =
     Some [Flags; CompleteLocalName "NUCLEO-WB55RG"; ServiceData UUID_BATTERY_SERVICE [50]]) ∧
  (patch_status full_buffer_world ≠ BLE_ERROR_NONE ∧
   gap_calls (gap (m_BluetoothLowEnergyStack (exec update_battery_level full_buffer_world))) = []).
Proof.
  split.
  - assert (Hf : patch_status (advertising_world [0; 0; 0; 0; BLE_ERROR_INVALID_STATE])
                 ≠ BLE_ERROR_NONE) by (vm_compute; discriminate).
    split; [exact Hf|].
    pose proof (patch_failure_keeps_previous_payload _ Hf) as (_ & _ & Hkept & _).
    cbv zeta in Hkept |- *. rewrite Hkept. reflexivity.
  - assert (Hf : patch_status full_buffer_world ≠ BLE_ERROR_NONE)
      by (vm_compute; discriminate).
    split; [exact Hf|].
    pose proof (patch_failure_keeps_previous_payload _ Hf) as (_ & Hcalls & _).
    exact Hcalls.
Defined.

Lemma failed_ticks_are_skipped_witness :
  let w := advertising_world [0; 0; 0; 0; BLE_STACK_BUSY; BLE_STACK_BUSY; 0] in
  let w' := exec update_battery_level (ticks 2 w) in
  failing_ticks 2 w ∧
  patch_status (ticks 2 w) = BLE_ERROR_NONE ∧
  m_TheBatteryLevel w' = 47 ∧
  advertising_payload (gap (m_BluetoothLowEnergyStack (ticks 2 w))) =
    Some [Flags; CompleteLocalName "NUCLEO-WB55RG"; ServiceData UUID_BATTERY_SERVICE [50]] ∧
  advertising_payload (gap (m_BluetoothLowEnergyStack w')) =
    Some [Flags; CompleteLocalName "NUCLEO-WB55RG"; ServiceData UUID_BATTERY_SERVICE [47]].
Proof.
  cbv zeta.
  set (w := advertising_world [0; 0; 0; 0; BLE_STACK_BUSY; BLE_STACK_BUSY; 0]).
  assert (Hk : failing_ticks 2 w)
    by (cbn [failing_ticks]; split_and!; [vm_compute; discriminate..|exact I]).
  assert (Hs : patch_status (ticks 2 w) = BLE_ERROR_NONE) by (vm_compute; reflexivity).
  pose proof (failed_ticks_are_skipped 2 w Hk Hs) as (_ & Hkept & Hlevel & Hset & Hpub).
  split_and!; [exact Hk|exact Hs| | |].
  - rewrite Hlevel. reflexivity.
  - rewrite Hkept. reflexivity.
  - rewrite Hpub. vm_compute. reflexivity.
Defined.

Lemma init_failure_keeps_dispatching_witness :
  let w := main (B:=FieldBuilder) (build:=mbed_os_build)
             (BLE_Instance BLE_ERROR_INITIALIZATION_INCOMPLETE []) 3 in
  BLE_ERROR_INITIALIZATION_INCOMPLETE ≠ BLE_ERROR_NONE ∧
  m_SharedEventQueue w = {| now := 3000; posted := []; timers := [] |} ∧
  gap_calls (gap (m_BluetoothLowEnergyStack w)) = [] ∧
  advertising (gap (m_BluetoothLowEnergyStack w)) = false.
Proof.
  pose proof (init_failure_keeps_dispatching (B:=FieldBuilder) (build:=mbed_os_build)
                BLE_ERROR_INITIALIZATION_INCOMPLETE [] 3 ltac:(discriminate))
    as (_ & Hqueue & _ & _ & Hcalls & Hadv & _).
  split_and!; [discriminate|exact Hqueue|exact Hcalls|exact Hadv].
Defined.

(** * Further properties *)

(** ** The texts of the error table *)

Lemma error_descriptions_texts_distinct : NoDup error_descriptions.*2.
Proof. apply (bool_decide_unpack _). vm_compute. exact I. Qed.

Lemma not_an_error_fresh : not_an_error ∉ error_descriptions.*2.
Proof. apply (bool_decide_unpack _). vm_compute. exact I. Qed.

Lemma error_descriptions_text_key (k1 k2 : Z) (text : string) :
  (k1, text) ∈ error_descriptions → (k2, text) ∈ error_descriptions → k1 = k2.
Proof.
  intros [i Hi]%list_elem_of_lookup [j Hj]%list_elem_of_lookup.
  assert (i = j) as ->.
  { apply (NoDup_lookup error_descriptions.*2 i j text).
    - apply error_descriptions_texts_distinct.
    - by rewrite list_lookup_fmap, Hi.
    - by rewrite list_lookup_fmap, Hj. }
  congruence.
Qed.

Lemma ToString_known (key : Z) :
  0 <= key <= 13 → (key, (ToString key gs_ErrorCodesMap).1) ∈ error_descriptions.
Proof.
  intros Hk. destruct (error_descriptions_total key Hk) as [text Hin].
  unfold ToString. rewrite (gs_ErrorCodesMap_known key text Hin). exact Hin.
Qed.

Lemma ToString_unknown (key : Z) :
  ¬ (0 <= key <= 13) → (ToString key gs_ErrorCodesMap).1 = not_an_error.
Proof.
  intros Hk. unfold ToString. rewrite (gs_ErrorCodesMap_unknown key Hk). reflexivity.
Qed.

(** X1: on the program's table, [ToString] gives two codes the same text
    only if they are the same code or both lie outside the table: no two
    rows share a description, and the warning text is no row's
    description. *)
Theorem ToString_separates_codes (k1 k2 : Z) :
  (ToString k1 gs_ErrorCodesMap).1 = (ToString k2 gs_ErrorCodesMap).1 ↔
  k1 = k2 ∨ (¬ (0 <= k1 <= 13) ∧ ¬ (0 <= k2 <= 13)).
Proof.
  split.
  - intros Heq.
    destruct (decide (0 <= k1 <= 13)) as [H1|H1], (decide (0 <= k2 <= 13)) as [H2|H2].
    + left. apply ToString_known in H1, H2. rewrite Heq in H1.
      exact (error_descriptions_text_key _ _ _ H1 H2).
    + exfalso. apply ToString_known in H1. rewrite Heq, (ToString_unknown k2 H2) in H1.
      clear Heq. apply not_an_error_fresh. apply list_elem_of_fmap.
      exists (k1, not_an_error). split; [reflexivity|exact H1].
    + exfalso. apply ToString_known in H2. rewrite <- Heq, (ToString_unknown k1 H1) in H2.
      clear Heq. apply not_an_error_fresh. apply list_elem_of_fmap.
      exists (k2, not_an_error). split; [reflexivity|exact H2].
    + right. split; assumption.
  - intros [->|[H1 H2]]; [reflexivity|].
    rewrite (ToString_unknown k1 H1), (ToString_unknown k2 H2). reflexivity.
Qed.

(** ** The level as an 8-bit counter *)

Lemma next_level_u8 (v : Z) : 0 <= next_level v < 256.
Proof.
  unfold next_level. destruct (v =? 10); [lia|].
  apply Z.mod_pos_bound. lia.
Qed.

Lemma iter_next_level_u8 (n : nat) (v : Z) :
  0 <= v < 256 → 0 <= Nat.iter n next_level v < 256.
Proof.
  intros Hv. destruct n as [|n]; [exact Hv|].
  rewrite Nat.iter_succ. apply next_level_u8.
Qed.

Lemma iter_next_level_enters (v : Z) :
  0 <= v < 256 → 10 <= Nat.iter 165 next_level v <= 100.
Proof.
  intros Hv.
  assert (Hall : forallb (λ u, (10 <=? Nat.iter 165 next_level u) &&
                               (Nat.iter 165 next_level u <=? 100)) (seqZ 0 256) = true)
    by (vm_compute; reflexivity).
  rewrite forallb_forall in Hall.
  specialize (Hall v). rewrite <- list_elem_of_In, elem_of_seqZ in Hall.
  specialize (Hall ltac:(lia)). apply andb_true_iff in Hall as [?%Z.leb_le ?%Z.leb_le].
  lia.
Qed.

Section Counter.
Context {B : Type} `{!AdvertisingDataBuilder B}.
Implicit Types w : @World B.

(** X2: whatever 8-bit value the level holds, it stays an 8-bit value
    under [update_battery_level], and from the 165th tick on it lies
    between 10 and 100.  A level below 10 is not wrapped to 100 at once:
    it runs down to 0, passes to 255 and walks down from there, so that
    from 9 the level is still 101 after 164 ticks. *)
Theorem level_enters_the_cycle (n : nat) w :
  0 <= m_TheBatteryLevel w < 256 →
  0 <= m_TheBatteryLevel (ticks n w) < 256 ∧
  ((165 <= n)%nat → 10 <= m_TheBatteryLevel (ticks n w) <= 100) ∧
  (m_TheBatteryLevel w = 9 →
   m_TheBatteryLevel (ticks 10 w) = 255 ∧ m_TheBatteryLevel (ticks 164 w) = 101).
Proof.
  intros Hv. rewrite !ticks_level.
  split; [by apply iter_next_level_u8|]. split.
  - intros Hn. replace n with ((n - 165) + 165)%nat by lia.
    rewrite Nat.iter_add. apply iter_next_level_range.
    by apply iter_next_level_enters.
  - intros Hw. rewrite Hw. split; by vm_compute.
Qed.

End Counter.

(** ** What one tick touches *)

Lemma gap_invoke_payload (h : Z) (p : list AdvertisingDataElement) (g : Gap) :
  let r := gap_invoke (setAdvertisingPayload h p) g in
  scan_response r.2 = scan_response g ∧
  parameters r.2 = parameters g ∧
  advertising r.2 = advertising g ∧
  advertising_payload r.2 = if is_error r.1 then advertising_payload g else Some p.
Proof.
  unfold gap_invoke, is_error, BLE_ERROR_NONE. cbn.
  by destruct (hd 0 (gap_replies g) =? 0).
Qed.

Lemma gap_invoke_advertising (c : GapCall) (g : Gap) :
  advertising (gap_invoke c g).2 =
    match c with
    | startAdvertising _ => if is_error (gap_invoke c g).1 then advertising g else true
    | _ => advertising g
    end.
Proof.
  unfold gap_invoke, is_error, BLE_ERROR_NONE. cbn.
  by destruct (hd 0 (gap_replies g) =? 0), c.
Qed.

Section Tick.
Context {B : Type} `{!AdvertisingDataBuilder B}.
Implicit Types w : @World B.

(** X3: everything one run of [update_battery_level] does, whatever the
    builder and the Gap answer.  The level moves one step and the builder
    is asked once; the Gap is called at most once, with
    [setAdvertisingPayload] and the builder's data, and not at all (its next
    answer is not used up) when the builder refused; at most one line is
    printed, and only for a non-success status; the payload on air changes
    only if both calls succeeded; the scan response, the parameters, the
    advertising state, the event queue and the error table are never
    touched. *)
Theorem update_battery_level_effects w :
  let w' := exec update_battery_level w in
  let g := gap (m_BluetoothLowEnergyStack w) in
  let g' := gap (m_BluetoothLowEnergyStack w') in
  let sb := setServiceData UUID_BATTERY_SERVICE [next_level (m_TheBatteryLevel w)]
              (m_AdvertisingDataBuilder w) in
  m_TheBatteryLevel w' = next_level (m_TheBatteryLevel w) ∧
  m_AdvertisingDataBuilder w' = sb.2 ∧
  gap_calls g' =
    gap_calls g ++
      (if is_error sb.1 then []
       else [setAdvertisingPayload LEGACY_ADVERTISING_HANDLE (getAdvertisingData sb.2)]) ∧
  gap_replies g' = (if is_error sb.1 then gap_replies g else tail (gap_replies g)) ∧
  console w' =
    console w ++
      (if is_error (patch_status w)
       then [ErrorLine (if is_error sb.1
                        then "Error! _adv_data_builder.setServiceData() failed:"
                        else "Error! _ble.gap().setAdvertisingPayload() failed:")
               (patch_status w) (ToString (patch_status w) (error_table w)).1]
       else []) ∧
  advertising_payload g' =
    (if is_error (patch_status w) then advertising_payload g
     else Some (getAdvertisingData sb.2)) ∧
  scan_response g' = scan_response g ∧
  parameters g' = parameters g ∧
  advertising g' = advertising g ∧
  m_SharedEventQueue w' = m_SharedEventQueue w ∧
  error_table w' = error_table w.
Proof.
  intros w' g g' sb. subst w' g g'.
  rewrite update_battery_level_run. cbv zeta. fold sb.
  unfold patch_status, next_gap_status. rewrite service_data_status_eq. fold sb.
  destruct (is_error sb.1) eqn:He1.
  - rewrite He1. unfold exec. rewrite print_error_run. cbn.
    by rewrite app_nil_r.
  - set (c := setAdvertisingPayload _ _).
    destruct (gap_invoke_replies c (gap (m_BluetoothLowEnergyStack w))) as [Hs Hr].
    destruct (gap_invoke_payload LEGACY_ADVERTISING_HANDLE (getAdvertisingData sb.2)
                (gap (m_BluetoothLowEnergyStack w))) as (Hsr & Hpa & Had & Hap).
    fold c in Hsr, Hpa, Had, Hap. cbv zeta in Hsr, Hpa, Had, Hap.
    rewrite <- Hs.
    destruct (is_error (gap_invoke c _).1) eqn:He2.
    + unfold exec. rewrite print_error_run. cbn -[gap_invoke].
      by rewrite gap_invoke_calls.
    + cbn -[gap_invoke]. by rewrite gap_invoke_calls, app_nil_r.
Qed.

End Tick.

(** ** What the setup does not look at *)

Section Setters.
Context {B : Type} `{!AdvertisingDataBuilder B}.
Implicit Types w : @World B.

(** X4: [start_advertising] never looks at the status of the builder's
    four setters.  With a Gap that accepts the four calls, whatever the
    setters return, nothing is printed, the Gap is handed the builder's data
    as it stands after the manufacturer data (scan response) and after
    clear, flags, name and service data (payload), advertising starts and
    the battery timer is registered. *)
Theorem setup_ignores_builder_statuses (rest : list Z) w :
  gap_replies (gap (m_BluetoothLowEnergyStack w)) =
    BLE_ERROR_NONE :: BLE_ERROR_NONE :: BLE_ERROR_NONE :: BLE_ERROR_NONE :: rest →
  let w' := exec start_advertising w in
  let g := gap (m_BluetoothLowEnergyStack w) in
  let g' := gap (m_BluetoothLowEnergyStack w') in
  let b1 := (setManufacturerSpecificData [0xAD; 0xDE; 0xBE; 0xEF]
               (m_AdvertisingDataBuilder w)).2 in
  let b2 := (setServiceData UUID_BATTERY_SERVICE [m_TheBatteryLevel w]
               (setName DEVICE_NAME (setFlags (clear b1)).2).2).2 in
  console w' = console w ∧
  m_AdvertisingDataBuilder w' = b2 ∧
  gap_calls g' =
    gap_calls g ++
      [setAdvertisingScanResponse LEGACY_ADVERTISING_HANDLE (getAdvertisingData b1);
       setAdvertisingParameters LEGACY_ADVERTISING_HANDLE
         {| adv_type := SCANNABLE_UNDIRECTED; adv_interval_ms := 1000 |};
       setAdvertisingPayload LEGACY_ADVERTISING_HANDLE (getAdvertisingData b2);
       startAdvertising LEGACY_ADVERTISING_HANDLE] ∧
  scan_response g' = Some (getAdvertisingData b1) ∧
  advertising_payload g' = Some (getAdvertisingData b2) ∧
  advertising g' = true ∧
  timers (m_SharedEventQueue w') =
    timers (m_SharedEventQueue w) ++ [battery_timer (now (m_SharedEventQueue w))].
Proof.
  intros Hr w' g g' b1 b2. subst g' w'.
  rewrite start_advertising_run. cbv zeta. fold b1. fold b2.
  destruct w as [t [ir ip eh [replies calls sr pa ap ad]] q lv b c].
  cbn in Hr, g. subst replies g.
  cbn -[gap_invoke].
  do 4 (rewrite gap_invoke_cons; cbn -[gap_invoke]).
  split_and!; try reflexivity.
  by rewrite <- !app_assoc.
Qed.

End Setters.

(** ** The program as a whole *)

Section Program.
Context {B : Type} `{!AdvertisingDataBuilder B} {build : Build}.
Implicit Types w : @World B.

Lemma run_posted_single (ev : Event) w :
  posted (m_SharedEventQueue w) = [ev] →
  exec run_posted w =
    exec (run_event ev)
      (set_queue {| now := now (m_SharedEventQueue w); posted := [];
                    timers := timers (m_SharedEventQueue w) |} w).
Proof.
  intros Hp. unfold run_posted.
  rewrite exec_bind. cbn [gets fst snd]. rewrite Hp.
  rewrite exec_then. cbn [run_events]. rewrite exec_then. reflexivity.
Qed.

Lemma processEvents_pending w :
  init_pending (m_BluetoothLowEnergyStack w) = true →
  exec processEvents w =
    exec (on_init_complete (init_result (m_BluetoothLowEnergyStack w)))
      (set_stack {| init_result := init_result (m_BluetoothLowEnergyStack w);
                    init_pending := false;
                    events_hook := events_hook (m_BluetoothLowEnergyStack w);
                    gap := gap (m_BluetoothLowEnergyStack w) |} w).
Proof.
  intros Hp. unfold processEvents.
  rewrite exec_bind. cbn [gets fst snd]. rewrite Hp.
  apply exec_then.
Qed.

(** [main] up to the moment the loop runs the posted completion. *)
Lemma main_zero (ble : BLE) :
  main (B:=B) ble 0 = exec (on_init_complete (init_result ble)) (started ble).
Proof.
  unfold main, start, dispatch_forever, started, banner_lines, MBED_VERSION.
  destruct build as [[[major minor] patch]|].
  all: rewrite !exec_then.
  all: change (exec (dispatch_rounds 0) ?w) with w.
  all: rewrite (run_posted_single ProcessEvents) by reflexivity.
  all: cbn [run_event]; rewrite processEvents_pending by reflexivity.
  all: apply (f_equal2 (λ r w, exec (on_init_complete r) w)); reflexivity.
Qed.

Lemma on_init_complete_success w :
  exec (on_init_complete BLE_ERROR_NONE) w =
    exec start_advertising (exec print_mac_address w).
Proof. unfold on_init_complete. cbn [Z.eqb BLE_ERROR_NONE negb]. apply exec_then. Qed.

Lemma update_battery_level_table w :
  error_table (exec update_battery_level w) = error_table w.
Proof.
  rewrite update_battery_level_run. cbv zeta.
  repeat case_match; unfold exec; rewrite ?print_error_run; reflexivity.
Qed.

Lemma update_battery_level_advertising w :
  advertising (gap (m_BluetoothLowEnergyStack (exec update_battery_level w))) =
    advertising (gap (m_BluetoothLowEnergyStack w)).
Proof.
  rewrite update_battery_level_run. cbv zeta.
  repeat case_match; unfold exec; rewrite ?print_error_run; cbn -[gap_invoke];
    rewrite ?gap_invoke_advertising; reflexivity.
Qed.

(** The queue of a run whose timer is armed, [n] rounds later. *)
Lemma dispatch_rounds_ticking_queue (n : nat) w :
  ticking (m_SharedEventQueue w) →
  m_SharedEventQueue (exec (dispatch_rounds n) w) =
    {| now := now (m_SharedEventQueue w) + 1000 * Z.of_nat n; posted := [];
       timers := [battery_timer (now (m_SharedEventQueue w) + 1000 * Z.of_nat n)] |}.
Proof.
  revert w. induction n as [|n IH]; intros w Hq.
  - change (exec (dispatch_rounds 0) w) with w.
    destruct Hq as [Hp Ht]. destruct (m_SharedEventQueue w) as [nw ps ts].
    cbn in *. subst. unfold battery_timer. by rewrite Z.add_0_r.
  - cbn [dispatch_rounds]. rewrite exec_then, dispatch_round_ticking by done.
    rewrite IH.
    + rewrite update_battery_level_queue. cbn [a_second_later now set_queue
        m_SharedEventQueue].
      replace (now (m_SharedEventQueue w) + 1000 + 1000 * Z.of_nat n)
        with (now (m_SharedEventQueue w) + 1000 * Z.of_nat (S n)) by lia.
      reflexivity.
    + rewrite update_battery_level_queue. apply a_second_later_ticking.
Qed.

(** What holds of a ticking world, survives a change of queue and survives
    a tick, holds after any number of rounds. *)
Lemma dispatch_rounds_ticking_ind (P : World → Prop) :
  (∀ w q, P w → P (set_queue q w)) →
  (∀ w, P w → P (exec update_battery_level w)) →
  ∀ (n : nat) w, ticking (m_SharedEventQueue w) → P w → P (exec (dispatch_rounds n) w).
Proof.
  intros Hqueue Htick n. induction n as [|n IH]; intros w Hq Hw; [exact Hw|].
  cbn [dispatch_rounds]. rewrite exec_then, dispatch_round_ticking by done.
  apply IH.
  - rewrite update_battery_level_queue. apply a_second_later_ticking.
  - by apply Htick, Hqueue.
Qed.

(** The two ways [start_advertising] ends: with one diagnostic, the queue
    and the advertising state as they were; or silently, advertising, with
    the battery timer registered. *)
Lemma start_advertising_shape w :
  let w' := exec start_advertising w in
  let g := gap (m_BluetoothLowEnergyStack w) in
  let g' := gap (m_BluetoothLowEnergyStack w') in
  error_table w' = error_table w ∧
  m_TheBatteryLevel w' = m_TheBatteryLevel w ∧
  ((m_SharedEventQueue w' = m_SharedEventQueue w ∧
    advertising g' = advertising g ∧
    ∃ what code, code ≠ BLE_ERROR_NONE ∧
      console w' = console w ++ [ErrorLine what code (ToString code (error_table w)).1]) ∨
   (m_SharedEventQueue w' =
      {| now := now (m_SharedEventQueue w); posted := posted (m_SharedEventQueue w);
         timers := timers (m_SharedEventQueue w) ++
                     [battery_timer (now (m_SharedEventQueue w))] |} ∧
    advertising g' = true ∧
    console w' = console w)).
Proof.
  intros w' g g'. subst w' g g'.
  rewrite start_advertising_run. cbv zeta.
  set (r1 := gap_invoke (setAdvertisingScanResponse _ _) _).
  set (r2 := gap_invoke (setAdvertisingParameters _ _) _).
  set (r3 := gap_invoke (setAdvertisingPayload _ _) _).
  set (r4 := gap_invoke (startAdvertising _) _).
  assert (H1 : advertising r1.2 = advertising (gap (m_BluetoothLowEnergyStack w)))
    by (subst r1; by rewrite gap_invoke_advertising).
  assert (H2 : advertising r2.2 = advertising r1.2)
    by (subst r2; by rewrite gap_invoke_advertising).
  assert (H3 : advertising r3.2 = advertising r2.2)
    by (subst r3; by rewrite gap_invoke_advertising).
  assert (H4 : advertising r4.2 = if is_error r4.1 then advertising r3.2 else true)
    by (subst r4; by rewrite gap_invoke_advertising).
  clearbody r1 r2 r3 r4.
  destruct (is_error r2.1) eqn:He2; [|destruct (is_error r3.1) eqn:He3;
    [|destruct (is_error r4.1) eqn:He4]];
    unfold exec; rewrite ?print_error_run; cbn; (split; [reflexivity|]);
    (split; [reflexivity|]).
  - left. split_and!; [reflexivity|congruence|].
    eexists _, _. split; [|reflexivity]. by apply is_error_true.
  - left. split_and!; [reflexivity|congruence|].
    eexists _, _. split; [|reflexivity]. by apply is_error_true.
  - left. split_and!; [reflexivity|congruence|].
    eexists _, _. split; [|reflexivity]. by apply is_error_true.
  - right. by split_and!.
Qed.

End Program.

Section Runs.
Context {B : Type} `{!AdvertisingDataBuilder B} {build : Build}.
Implicit Types w : @World B.

Lemma started_print_mac_address (ble : BLE) :
  exec print_mac_address (started (B:=B) ble) =
    set_console (banner_lines ++ [MacAddress]) (started ble).
Proof. reflexivity. Qed.

(** [start_advertising] when the three checked calls are accepted. *)
Lemma start_advertising_started (r1 : Z) (rest : list Z) w :
  gap_replies (gap (m_BluetoothLowEnergyStack w)) = r1 :: 0 :: 0 :: 0 :: rest →
  let w' := exec start_advertising w in
  m_SharedEventQueue w' =
    {| now := now (m_SharedEventQueue w); posted := posted (m_SharedEventQueue w);
       timers := timers (m_SharedEventQueue w) ++
                   [battery_timer (now (m_SharedEventQueue w))] |} ∧
  advertising (gap (m_BluetoothLowEnergyStack w')) = true ∧
  m_TheBatteryLevel w' = m_TheBatteryLevel w ∧
  console w' = console w.
Proof.
  intros Hr w'. subst w'.
  rewrite start_advertising_run. cbv zeta.
  destruct w as [t [ir ip eh [replies calls sr pa ap ad]] q lv b c].
  cbn in Hr. subst replies.
  cbn -[gap_invoke]. rewrite gap_invoke_cons.
  destruct (r1 =? BLE_ERROR_NONE); cbn -[gap_invoke];
    do 3 (rewrite gap_invoke_cons; cbn -[gap_invoke]);
    (split; [reflexivity|]); (split; [reflexivity|]); split; reflexivity.
Qed.

Lemma well_formed_tick w :
  error_table w = gs_ErrorCodesMap →
  Forall well_formed_line (console w) →
  Forall well_formed_line (console (exec update_battery_level w)).
Proof.
  intros Ht Hc. destruct (decide (patch_status w = BLE_ERROR_NONE)) as [Hs|Hf].
  - destruct (update_battery_level_success w Hs) as (_ & _ & ->). exact Hc.
  - destruct (update_battery_level_failure w Hf) as (-> & _).
    apply Forall_app. split; [exact Hc|].
    apply Forall_singleton. split; [exact Hf|]. rewrite Ht. reflexivity.
Qed.

Lemma banner_lines_well_formed : Forall well_formed_line (banner_lines ++ [MacAddress]).
Proof.
  unfold banner_lines, MBED_VERSION.
  destruct build as [[[major minor] patch]|];
    repeat (apply Forall_cons; split; [exact I|]); apply Forall_nil_2.
Qed.

(** The state in which the loop finds itself once the completion has
    run. *)
Lemma main_zero_state (result : Z) (replies : list Z) :
  let w := main (B:=B) (BLE_Instance result replies) 0 in
  error_table w = gs_ErrorCodesMap ∧
  m_TheBatteryLevel w = 50 ∧
  Forall well_formed_line (console w) ∧
  ((m_SharedEventQueue w = g_SharedEventQueue ∧
    advertising (gap (m_BluetoothLowEnergyStack w)) = false) ∨
   (m_SharedEventQueue w = {| now := 0; posted := []; timers := [battery_timer 0] |} ∧
    advertising (gap (m_BluetoothLowEnergyStack w)) = true)).
Proof.
  cbv zeta. rewrite main_zero. cbn [init_result BLE_Instance].
  destruct (decide (result = BLE_ERROR_NONE)) as [->|Hne].
  - rewrite on_init_complete_success, started_print_mac_address.
    set (w0 := set_console _ _).
    destruct (start_advertising_shape w0) as (Ht & Hl & Hshape).
    cbv zeta in Ht, Hl, Hshape.
    split; [rewrite Ht; reflexivity|]. split; [rewrite Hl; reflexivity|].
    destruct Hshape as [(Hq & Had & what & code & Hcode & Hc)|(Hq & Had & Hc)].
    + split; [|left; rewrite Hq, Had; split; reflexivity].
      rewrite Hc. apply Forall_app. split.
      * apply banner_lines_well_formed.
      * apply Forall_singleton. split; [exact Hcode|reflexivity].
    + split; [|right; rewrite Hq, Had; split; reflexivity].
      rewrite Hc. apply banner_lines_well_formed.
  - unfold exec. rewrite on_init_complete_failure_run by exact Hne.
    split; [reflexivity|]. split; [reflexivity|]. split; [|left; split; reflexivity].
    cbn [console set_console started snd].
    apply Forall_app. split.
    + pose proof banner_lines_well_formed as Hb.
      apply Forall_app in Hb as [Hb _]. exact Hb.
    + apply Forall_singleton. split; [exact Hne|reflexivity].
Qed.

(** The state after [n] rounds, whatever the initialisation and the Gap
    answered: either nothing is armed, the device is not advertising and the
    level rests at 50, or the battery timer alone is armed, the device is
    advertising and the level has moved [n] steps. *)
Lemma main_state (result : Z) (replies : list Z) (n : nat) :
  let w := main (B:=B) (BLE_Instance result replies) n in
  error_table w = gs_ErrorCodesMap ∧
  Forall well_formed_line (console w) ∧
  now (m_SharedEventQueue w) = 1000 * Z.of_nat n ∧
  posted (m_SharedEventQueue w) = [] ∧
  ((timers (m_SharedEventQueue w) = [] ∧
    advertising (gap (m_BluetoothLowEnergyStack w)) = false ∧
    m_TheBatteryLevel w = 50) ∨
   (timers (m_SharedEventQueue w) = [battery_timer (1000 * Z.of_nat n)] ∧
    advertising (gap (m_BluetoothLowEnergyStack w)) = true ∧
    m_TheBatteryLevel w = Nat.iter n next_level 50)).
Proof.
  cbv zeta. rewrite main_rounds.
  destruct (main_zero_state result replies) as (Ht & Hl & Hc & Hshape).
  cbv zeta in Ht, Hl, Hc, Hshape.
  set (w0 := main (BLE_Instance result replies) 0) in *. clearbody w0.
  destruct Hshape as [[Hq Had]|[Hq Had]].
  - rewrite dispatch_rounds_idle by (rewrite Hq; reflexivity).
    rewrite Hq. cbn.
    split; [exact Ht|]. split; [exact Hc|]. split; [lia|]. split; [reflexivity|].
    left. split; [reflexivity|]. split; [exact Had|exact Hl].
  - assert (Hticking : ticking (m_SharedEventQueue w0))
      by (rewrite Hq; split; reflexivity).
    rewrite dispatch_rounds_ticking_queue by exact Hticking.
    rewrite dispatch_rounds_level by exact Hticking.
    rewrite Hq, Hl. cbn [now posted timers].
    assert (HP : error_table (exec (dispatch_rounds n) w0) = gs_ErrorCodesMap ∧
                 Forall well_formed_line (console (exec (dispatch_rounds n) w0)) ∧
                 advertising (gap (m_BluetoothLowEnergyStack
                                (exec (dispatch_rounds n) w0))) = true).
    { apply (dispatch_rounds_ticking_ind
               (λ w, error_table w = gs_ErrorCodesMap ∧
                     Forall well_formed_line (console w) ∧
                     advertising (gap (m_BluetoothLowEnergyStack w)) = true));
        [intros ? ? Hw; exact Hw| |exact Hticking|].
      - intros w (Hwt & Hwc & Hwa). split; [|split].
        + rewrite update_battery_level_table. exact Hwt.
        + apply well_formed_tick; assumption.
        + rewrite update_battery_level_advertising. exact Hwa.
      - split; [exact Ht|]. split; [exact Hc|exact Had]. }
    destruct HP as (HPt & HPc & HPa).
    split; [exact HPt|]. split; [exact HPc|]. split; [lia|]. split; [reflexivity|].
    right. split; [|split; [exact HPa|reflexivity]].
    rewrite Z.add_0_l. reflexivity.
Qed.

(** The calls [start_advertising] has made when the [i]-th checked call is
    the first one rejected. *)
Lemma checked_status_calls (i : nat) (r1 e : Z) (rest : list Z) w :
  (i <= 2)%nat →
  gap_replies (gap (m_BluetoothLowEnergyStack w)) = r1 :: replicate i 0 ++ e :: rest →
  e ≠ BLE_ERROR_NONE →
  let b1 := (setManufacturerSpecificData [0xAD; 0xDE; 0xBE; 0xEF]
               (m_AdvertisingDataBuilder w)).2 in
  let b2 := (setServiceData UUID_BATTERY_SERVICE [m_TheBatteryLevel w]
               (setName DEVICE_NAME (setFlags (clear b1)).2).2).2 in
  gap_calls (gap (m_BluetoothLowEnergyStack (exec start_advertising w))) =
    gap_calls (gap (m_BluetoothLowEnergyStack w)) ++
      take (2 + i)
        [setAdvertisingScanResponse LEGACY_ADVERTISING_HANDLE (getAdvertisingData b1);
         setAdvertisingParameters LEGACY_ADVERTISING_HANDLE
           {| adv_type := SCANNABLE_UNDIRECTED; adv_interval_ms := 1000 |};
         setAdvertisingPayload LEGACY_ADVERTISING_HANDLE (getAdvertisingData b2);
         startAdvertising LEGACY_ADVERTISING_HANDLE].
Proof.
  intros Hi Hr He b1 b2.
  rewrite start_advertising_run. cbv zeta. fold b1. fold b2.
  apply Z.eqb_neq in He.
  assert (Hie : is_error e = true) by (apply is_error_true, Z.eqb_neq; exact He).
  destruct w as [t [ir ip eh [replies calls sr pa ap ad]] q lv b c].
  cbn in Hr. subst replies.
  cbn -[gap_invoke]. rewrite gap_invoke_cons.
  destruct i as [|[|[|i]]]; [| | |lia];
    destruct (r1 =? BLE_ERROR_NONE); cbn -[gap_invoke is_error];
    repeat (rewrite gap_invoke_cons; cbn -[gap_invoke is_error]);
    rewrite ?He, ?Hie; cbn -[gap_invoke];
    unfold exec; rewrite print_error_run; cbn;
    rewrite <- !app_assoc; reflexivity.
Qed.

(** X5: when the initialisation succeeds but the Gap rejects one of the
    three checked calls of [start_advertising] (the [i]-th of parameters,
    payload, start, the ones before it accepted), the console holds the
    start-up lines of [main], the MAC address and that call's diagnostic,
    and nothing else; the Gap has seen, in this order, the scan response
    with the builder's manufacturer data, the parameters and, if they came
    before the rejected call, the payload and the start of advertising, the
    rejected call being the last one; the device is not advertising; and
    from then on the loop turns idle: after any number of rounds no timer
    is registered and the level is still 50. *)
Theorem setup_failure_idles (i : nat) (r1 e : Z) (rest : list Z) (n : nat) :
  (i <= 2)%nat →
  e ≠ BLE_ERROR_NONE →
  let w := main (B:=B) (BLE_Instance BLE_ERROR_NONE (r1 :: replicate i 0 ++ e :: rest)) n in
  let b1 := (setManufacturerSpecificData [0xAD; 0xDE; 0xBE; 0xEF]
               (builder_new (B:=B) LEGACY_ADVERTISING_MAX_SIZE)).2 in
  let b2 := (setServiceData UUID_BATTERY_SERVICE [50]
               (setName DEVICE_NAME (setFlags (clear b1)).2).2).2 in
  console w =
    banner_lines ++
      [MacAddress;
       ErrorLine (checked_call_message i) e (ToString e gs_ErrorCodesMap).1] ∧
  gap_calls (gap (m_BluetoothLowEnergyStack w)) =
    take (2 + i)
      [setAdvertisingScanResponse LEGACY_ADVERTISING_HANDLE (getAdvertisingData b1);
       setAdvertisingParameters LEGACY_ADVERTISING_HANDLE
         {| adv_type := SCANNABLE_UNDIRECTED; adv_interval_ms := 1000 |};
       setAdvertisingPayload LEGACY_ADVERTISING_HANDLE (getAdvertisingData b2);
       startAdvertising LEGACY_ADVERTISING_HANDLE] ∧
  advertising (gap (m_BluetoothLowEnergyStack w)) = false ∧
  m_SharedEventQueue w = {| now := 1000 * Z.of_nat n; posted := []; timers := [] |} ∧
  m_TheBatteryLevel w = 50.
Proof.
  intros Hi He w b1 b2. subst w.
  rewrite main_rounds, main_zero. cbn [init_result BLE_Instance].
  rewrite on_init_complete_success, started_print_mac_address.
  set (w0 := set_console _ _).
  destruct (checked_status_returns_early i r1 e rest w0 Hi eq_refl He)
    as (Hc & _ & _ & Had & Hq).
  pose proof (checked_status_calls i r1 e rest w0 Hi eq_refl He) as Hcalls.
  cbv zeta in Hc, Had, Hq, Hcalls.
  destruct (start_advertising_shape w0) as (_ & Hl & _). cbv zeta in Hl.
  set (w1 := exec start_advertising w0) in *. clearbody w1.
  rewrite dispatch_rounds_idle by (rewrite Hq; reflexivity).
  rewrite Hq. cbn [set_queue console m_BluetoothLowEnergyStack m_SharedEventQueue
    m_TheBatteryLevel now g_SharedEventQueue].
  rewrite Hc, Hcalls, Had, Hl.
  split; [|split; [reflexivity|]; split; [reflexivity|]; split;
             [rewrite Z.add_0_l; reflexivity|reflexivity]].
  subst w0. cbn [console set_console error_table started].
  rewrite <- app_assoc. reflexivity.
Qed.

(** X6: when the initialisation succeeds and the Gap accepts the three
    checked calls of [start_advertising] (whatever it answers to the scan
    response and to every later payload patch, and whatever the builder
    answers), the battery level after [n] seconds is the [n]-th iterate of
    the tick from 50, it lies between 10 and 100, the device is advertising,
    and the battery timer is the only timer, due one second later. *)
Theorem level_follows_clock (r1 : Z) (rest : list Z) (n : nat) :
  let w := main (B:=B) (BLE_Instance BLE_ERROR_NONE (r1 :: 0 :: 0 :: 0 :: rest)) n in
  m_TheBatteryLevel w = Nat.iter n next_level 50 ∧
  10 <= m_TheBatteryLevel w <= 100 ∧
  m_SharedEventQueue w =
    {| now := 1000 * Z.of_nat n; posted := [];
       timers := [battery_timer (1000 * Z.of_nat n)] |} ∧
  advertising (gap (m_BluetoothLowEnergyStack w)) = true.
Proof.
  cbv zeta. rewrite main_rounds, main_zero. cbn [init_result BLE_Instance].
  rewrite on_init_complete_success, started_print_mac_address.
  set (w0 := set_console _ _).
  destruct (start_advertising_started r1 rest w0 eq_refl) as (Hq & Had & Hl & _).
  cbv zeta in Hq, Had, Hl.
  set (w1 := exec start_advertising w0) in *. clearbody w1.
  assert (Hticking : ticking (m_SharedEventQueue w1))
    by (rewrite Hq; split; reflexivity).
  assert (Hlevel : m_TheBatteryLevel (exec (dispatch_rounds n) w1) =
                   Nat.iter n next_level 50).
  { rewrite dispatch_rounds_level by exact Hticking. rewrite Hl. reflexivity. }
  split; [exact Hlevel|]. split; [rewrite Hlevel; apply iter_next_level_range; lia|].
  split.
  - rewrite dispatch_rounds_ticking_queue by exact Hticking. rewrite Hq. cbn [now].
    rewrite Z.add_0_l. reflexivity.
  - apply (dispatch_rounds_ticking_ind
             (λ w, advertising (gap (m_BluetoothLowEnergyStack w)) = true));
      [intros ? ? Hw; exact Hw| |exact Hticking|exact Had].
    intros w Hw. rewrite update_battery_level_advertising. exact Hw.
Qed.

(** X7: whatever the initialisation delivers and whatever the Gap and the
    builder answer, after any number [n] of rounds the queue holds nothing
    posted and either no timer or the battery timer alone: the timer is
    registered at most once.  The timer is armed exactly when the device is
    advertising; the level has moved [n] steps from 50 when it is, and rests
    at 50 when it is not. *)
Theorem timer_runs_iff_advertising (result : Z) (replies : list Z) (n : nat) :
  let w := main (B:=B) (BLE_Instance result replies) n in
  now (m_SharedEventQueue w) = 1000 * Z.of_nat n ∧
  posted (m_SharedEventQueue w) = [] ∧
  ((timers (m_SharedEventQueue w) = [] ∧
    advertising (gap (m_BluetoothLowEnergyStack w)) = false ∧
    m_TheBatteryLevel w = 50) ∨
   (timers (m_SharedEventQueue w) = [battery_timer (1000 * Z.of_nat n)] ∧
    advertising (gap (m_BluetoothLowEnergyStack w)) = true ∧
    m_TheBatteryLevel w = Nat.iter n next_level 50)).
Proof.
  destruct (main_state result replies n) as (_ & _ & Hnow & Hposted & Hshape).
  split; [exact Hnow|]. split; [exact Hposted|exact Hshape].
Qed.

(** X8: whatever the initialisation delivers and whatever the Gap and the
    builder answer, every diagnostic on the console after any number of
    rounds carries a non-success code together with the text [ToString]
    gives for that code on the program's table, and the table itself is
    still the one built at start-up. *)
Theorem diagnostics_are_well_formed (result : Z) (replies : list Z) (n : nat) :
  let w := main (B:=B) (BLE_Instance result replies) n in
  Forall well_formed_line (console w) ∧
  error_table w = gs_ErrorCodesMap.
Proof.
  destruct (main_state result replies n) as (Ht & Hc & _).
  split; [exact Hc|exact Ht].
Qed.

End Runs.

(** ** The calls the Gap sees after the setup *)

Section Calls.
Context {B : Type} `{!AdvertisingDataBuilder B} {build : Build}.
Implicit Types w : @World B.

Lemma update_battery_level_calls w :
  ∃ patches : list GapCall,
    gap_calls (gap (m_BluetoothLowEnergyStack (exec update_battery_level w))) =
      gap_calls (gap (m_BluetoothLowEnergyStack w)) ++ patches ∧
    (length patches <= 1)%nat ∧
    Forall is_payload_call patches.
Proof.
  rewrite update_battery_level_run. cbv zeta.
  destruct (is_error (setServiceData _ _ _).1).
  - exists []. unfold exec. rewrite print_error_run. cbn.
    rewrite app_nil_r. split; [reflexivity|]. split; [lia|apply Forall_nil_2].
  - eexists (_ :: nil).
    split; [|split; [cbn; lia|apply Forall_singleton; eexists; reflexivity]].
    destruct (is_error (gap_invoke _ _).1); unfold exec; rewrite ?print_error_run;
      cbn -[gap_invoke]; by rewrite gap_invoke_calls.
Qed.

Lemma dispatch_rounds_calls (n : nat) w :
  ticking (m_SharedEventQueue w) →
  ∃ patches : list GapCall,
    gap_calls (gap (m_BluetoothLowEnergyStack (exec (dispatch_rounds n) w))) =
      gap_calls (gap (m_BluetoothLowEnergyStack w)) ++ patches ∧
    (length patches <= n)%nat ∧
    Forall is_payload_call patches.
Proof.
  revert w. induction n as [|n IH]; intros w Hq.
  - exists []. by rewrite app_nil_r.
  - cbn [dispatch_rounds]. rewrite exec_then, dispatch_round_ticking by done.
    set (w1 := set_queue _ w).
    destruct (update_battery_level_calls w1) as (l1 & Hl1 & Hn1 & Hf1).
    destruct (IH (exec update_battery_level w1)) as (l2 & Hl2 & Hn2 & Hf2).
    { rewrite update_battery_level_queue. apply a_second_later_ticking. }
    exists (l1 ++ l2). rewrite Hl2, Hl1, length_app, Forall_app, app_assoc.
    split_and!; [reflexivity|lia|done|done].
Qed.

(** X9: once the loop has run the completion, the only Gap call the
    program ever makes again is [setAdvertisingPayload] on the legacy
    handle, at most once per round: the log of calls after [n] rounds is
    the log of the setup followed by at most [n] such calls.  The
    parameters, the scan response and the start of advertising are never
    sent a second time, whatever the stack answers. *)
Theorem after_setup_only_payload_calls (result : Z) (replies : list Z) (n : nat) :
  ∃ patches : list GapCall,
    gap_calls (gap (m_BluetoothLowEnergyStack
                      (main (B:=B) (BLE_Instance result replies) n))) =
      gap_calls (gap (m_BluetoothLowEnergyStack
                        (main (B:=B) (BLE_Instance result replies) 0))) ++ patches ∧
    (length patches <= n)%nat ∧
    Forall is_payload_call patches ∧
    (length (gap_calls (gap (m_BluetoothLowEnergyStack
                               (main (B:=B) (BLE_Instance result replies) 0)))) <= 4)%nat.
Proof.
  assert (Hsetup : (length (gap_calls (gap (m_BluetoothLowEnergyStack
                      (main (B:=B) (BLE_Instance result replies) 0)))) <= 4)%nat).
  { rewrite main_zero. cbn [init_result BLE_Instance].
    destruct (decide (result = BLE_ERROR_NONE)) as [->|Hne].
    - rewrite on_init_complete_success, started_print_mac_address.
      rewrite start_advertising_run. cbv zeta.
      repeat case_match; unfold exec; rewrite ?print_error_run;
        cbn -[gap_invoke]; rewrite !gap_invoke_calls, !length_app; cbn; lia.
    - unfold exec. rewrite on_init_complete_failure_run by exact Hne. cbn. lia. }
  rewrite (main_rounds _ n).
  destruct (main_zero_state (B:=B) result replies) as (_ & _ & _ & Hshape).
  cbv zeta in Hshape.
  set (w0 := main (BLE_Instance result replies) 0) in *. clearbody w0.
  destruct Hshape as [[Hq _]|[Hq _]].
  - exists []. rewrite dispatch_rounds_idle by (rewrite Hq; reflexivity).
    cbn. rewrite app_nil_r.
    split; [reflexivity|]. split; [lia|]. split; [apply Forall_nil_2|exact Hsetup].
  - destruct (dispatch_rounds_calls n w0) as (l & Hl & Hn & Hf);
      [rewrite Hq; split; reflexivity|].
    exists l. split; [exact Hl|]. split; [exact Hn|]. split; [exact Hf|exact Hsetup].
Qed.

End Calls.

(** ** The setup, call by call *)

(** One call, on a Gap written out field by field, whatever is left of the
    replies. *)
Lemma gap_invoke_record c replies calls sr pa ap ad :
  gap_invoke c {| gap_replies := replies; gap_calls := calls; scan_response := sr;
                  parameters := pa; advertising_payload := ap; advertising := ad |} =
    (hd BLE_ERROR_NONE replies,
     if is_error (hd BLE_ERROR_NONE replies)
     then {| gap_replies := tail replies; gap_calls := calls ++ [c]; scan_response := sr;
             parameters := pa; advertising_payload := ap; advertising := ad |}
     else gap_accept c {| gap_replies := tail replies; gap_calls := calls ++ [c];
                          scan_response := sr; parameters := pa;
                          advertising_payload := ap; advertising := ad |}).
Proof.
  unfold gap_invoke, is_error, BLE_ERROR_NONE.
  cbn [gap_replies gap_calls scan_response parameters advertising_payload advertising].
  generalize (hd 0 replies). intros e. destruct (e =? 0); reflexivity.
Qed.

(** The answers to the four calls of the setup, read off the script. *)
Lemma nth_replies (replies : list Z) :
  hd BLE_ERROR_NONE replies = nth 0 replies BLE_ERROR_NONE ∧
  hd BLE_ERROR_NONE (tail replies) = nth 1 replies BLE_ERROR_NONE ∧
  hd BLE_ERROR_NONE (tail (tail replies)) = nth 2 replies BLE_ERROR_NONE ∧
  hd BLE_ERROR_NONE (tail (tail (tail replies))) = nth 3 replies BLE_ERROR_NONE.
Proof. destruct replies as [|? [|? [|? [|? ?]]]]; repeat split; reflexivity. Qed.

(** One more checked call of [start_advertising]: the Gap answers [e], and
    a rejection ends the run with its diagnostic. *)
Ltac checked_call_step H e :=
  cbn -[gap_invoke is_error banner_lines hd tail ToString gs_ErrorCodesMap];
  rewrite gap_invoke_record, H;
  cbn -[gap_invoke is_error banner_lines hd tail ToString gs_ErrorCodesMap];
  destruct (is_error e);
  [unfold exec; rewrite print_error_run;
   cbn -[banner_lines ToString gs_ErrorCodesMap];
   repeat split; reflexivity|].

(** C8: with an initialisation that succeeds, whatever the Gap answers
    (the [k]-th answer decides whether the [k]-th call is rejected; an
    answer the script does not hold is a success) and in every build, the
    program reaches the loop in this state.  The Gap has been handed, in
    this order, the scan response holding the manufacturer data
    AD DE BE EF, then the parameters, scannable undirected at 1000 ms;
    only if the parameters were accepted, the advertising payload holding
    the flags, the complete local name and the battery service data with
    the single byte 50; only if that payload was accepted, the start of
    advertising.  Each of them is in effect at the Gap exactly when the Gap
    accepted it, the device advertises exactly when the three checked calls
    were accepted, and exactly then the battery timer is registered, with a
    period of 1000 ms and first due 1000 ms later.  The level is 50. *)
Theorem advertising_configured {build : Build} (replies : list Z) :
  let w := main (B:=FieldBuilder) (BLE_Instance BLE_ERROR_NONE replies) 0 in
  let g := gap (m_BluetoothLowEnergyStack w) in
  let status (k : nat) := nth k replies BLE_ERROR_NONE in
  let rejected (k : nat) := is_error (status k) in
  let response := [ManufacturerSpecificData [0xAD; 0xDE; 0xBE; 0xEF]] in
  let params := {| adv_type := SCANNABLE_UNDIRECTED; adv_interval_ms := 1000 |} in
  let payload :=
    [Flags; CompleteLocalName "NUCLEO-WB55RG"; ServiceData UUID_BATTERY_SERVICE [50]] in
  gap_calls g =
    setAdvertisingScanResponse LEGACY_ADVERTISING_HANDLE response ::
    setAdvertisingParameters LEGACY_ADVERTISING_HANDLE params ::
    (if rejected 1%nat then []
     else setAdvertisingPayload LEGACY_ADVERTISING_HANDLE payload ::
          (if rejected 2%nat then [] else [startAdvertising LEGACY_ADVERTISING_HANDLE])) ∧
  scan_response g = (if rejected 0%nat then None else Some response) ∧
  parameters g = (if rejected 1%nat then None else Some params) ∧
  advertising_payload g =
    (if rejected 1%nat || rejected 2%nat then None else Some payload) ∧
  advertising g = negb (rejected 1%nat || rejected 2%nat || rejected 3%nat) ∧
  m_SharedEventQueue w =
    {| now := 0; posted := [];
       timers := if rejected 1%nat || rejected 2%nat || rejected 3%nat then []
                 else [{| period := 1000; due := 1000; callback := UpdateBatteryLevel |}] |} ∧
  m_TheBatteryLevel w = 50.
Proof.
  intros w g status rejected response params payload.
  subst g w rejected status response params payload. cbv beta.
  rewrite main_zero. cbn [init_result BLE_Instance].
  rewrite on_init_complete_success, started_print_mac_address, start_advertising_run.
  cbv zeta.
  destruct (nth_replies replies) as (H0 & H1 & H2 & H3).
  revert H0 H1 H2 H3.
  generalize (nth 0 replies BLE_ERROR_NONE) (nth 1 replies BLE_ERROR_NONE)
    (nth 2 replies BLE_ERROR_NONE) (nth 3 replies BLE_ERROR_NONE).
  intros e0 e1 e2 e3 H0 H1 H2 H3.
  cbn -[gap_invoke is_error banner_lines hd tail ToString gs_ErrorCodesMap].
  rewrite gap_invoke_record, H0.
  destruct (is_error e0); checked_call_step H1 e1; checked_call_step H2 e2; checked_call_step H3 e3;
    repeat split; reflexivity.
Qed.

(** C8, the run that separates the claim from the code: the initialisation
    succeeds and the Gap rejects the parameters.  The scan response is in
    effect, but the advertising payload is never handed to the Gap, the
    device does not advertise and no timer is registered. *)
Lemma advertising_configured_counterexample :
  let ble := BLE_Instance BLE_ERROR_NONE [BLE_ERROR_NONE; BLE_ERROR_PARAM_OUT_OF_RANGE] in
  let w := main (B:=FieldBuilder) (build:=mbed_os_build) ble 0 in
  let g := gap (m_BluetoothLowEnergyStack w) in
  init_result ble = BLE_ERROR_NONE ∧
  gap_calls g =
    [setAdvertisingScanResponse LEGACY_ADVERTISING_HANDLE
       [ManufacturerSpecificData [0xAD; 0xDE; 0xBE; 0xEF]];
     setAdvertisingParameters LEGACY_ADVERTISING_HANDLE
       {| adv_type := SCANNABLE_UNDIRECTED; adv_interval_ms := 1000 |}] ∧
  scan_response g = Some [ManufacturerSpecificData [0xAD; 0xDE; 0xBE; 0xEF]] ∧
  parameters g = None ∧
  advertising_payload g = None ∧
  advertising g = false ∧
  timers (m_SharedEventQueue w) = [].
Proof. cbv zeta. repeat split; vm_compute; reflexivity. Qed.

(** ** Concrete runs of the further properties *)

Lemma level_enters_the_cycle_witness :
  let w := set_level 9 (demo []) in
  0 <= m_TheBatteryLevel w < 256 ∧
  10 <= m_TheBatteryLevel (ticks 165 w) <= 100 ∧
  m_TheBatteryLevel (ticks 164 w) = 101.
Proof.
  assert (Hv : 0 <= m_TheBatteryLevel (set_level 9 (demo [])) < 256) by (cbn; lia).
  split; [exact Hv|].
  destruct (level_enters_the_cycle 165 (set_level 9 (demo [])) Hv) as (_ & Hin & _).
  destruct (level_enters_the_cycle 164 (set_level 9 (demo [])) Hv) as (_ & _ & Hlate).
  split; [apply Hin; lia|]. by apply Hlate.
Defined.

Lemma setup_ignores_builder_statuses_witness :
  let w := set_stack (BLE_Instance BLE_ERROR_NONE [0; 0; 0; 0]) small_buffer_world in
  let w' := exec start_advertising w in
  gap_replies (gap (m_BluetoothLowEnergyStack w)) = [0; 0; 0; 0] ∧
  (setName DEVICE_NAME {| capacity := 10; elements := [Flags] |}).1 =
    BLE_ERROR_BUFFER_OVERFLOW ∧
  console w' = [] ∧
  advertising_payload (gap (m_BluetoothLowEnergyStack w')) =
    Some [Flags; ServiceData UUID_BATTERY_SERVICE [50]] ∧
  advertising (gap (m_BluetoothLowEnergyStack w')) = true.
Proof.
  pose proof (setup_ignores_builder_statuses []
                (set_stack (BLE_Instance BLE_ERROR_NONE [0; 0; 0; 0]) small_buffer_world)
                eq_refl) as (Hconsole & _ & _ & _ & Hpayload & Hadv & _).
  split_and!; [reflexivity|reflexivity|exact Hconsole|exact Hpayload|exact Hadv].
Defined.

Lemma setup_failure_idles_witness :
  let w := main (B:=FieldBuilder) (build:=mbed_os_build)
             (BLE_Instance BLE_ERROR_NONE [0; 0; BLE_ERROR_INVALID_STATE]) 5 in
  (1 <= 2)%nat ∧
  BLE_ERROR_INVALID_STATE ≠ BLE_ERROR_NONE ∧
  console w =
    [Banner startup_banner; VersionLine 6 15 1; Banner built_banner; MacAddress;
     ErrorLine "Error! _ble.gap().setAdvertisingPayload() failed:" BLE_ERROR_INVALID_STATE
       (quoted "Invalid state")] ∧
  gap_calls (gap (m_BluetoothLowEnergyStack w)) =
    [setAdvertisingScanResponse LEGACY_ADVERTISING_HANDLE
       [ManufacturerSpecificData [0xAD; 0xDE; 0xBE; 0xEF]];
     setAdvertisingParameters LEGACY_ADVERTISING_HANDLE
       {| adv_type := SCANNABLE_UNDIRECTED; adv_interval_ms := 1000 |};
     setAdvertisingPayload LEGACY_ADVERTISING_HANDLE
       [Flags; CompleteLocalName "NUCLEO-WB55RG"; ServiceData UUID_BATTERY_SERVICE [50]]] ∧
  timers (m_SharedEventQueue w) = [] ∧
  m_TheBatteryLevel w = 50.
Proof.
  pose proof (setup_failure_idles (B:=FieldBuilder) (build:=mbed_os_build)
                1 0 BLE_ERROR_INVALID_STATE [] 5 ltac:(lia) ltac:(discriminate))
    as (Hconsole & Hcalls & _ & Hqueue & Hlevel).
  split_and!; [lia|discriminate| | | |exact Hlevel].
  - etrans; [exact Hconsole|]. vm_compute. reflexivity.
  - etrans; [exact Hcalls|]. vm_compute. reflexivity.
  - etrans; [exact (f_equal timers Hqueue)|]. reflexivity.
Defined.
